(** * dlib: the dlog logging facade and the dexec platform bridge

    A shallow embedding of
    - the dlog file that declares LogLevel, GenericLogger and BaseLogger,
    - [dlog/logger_logrus.go] (logrusLevel, MaxLevel, the caller hook),
    - [dlog/split_logger.go]  (splitLogger),
    - [dexec/cmd_windows.go]  (canInterrupt),
    - [internal/sigint/sigint_windows.go] (SendInterrupt),
    followed by a transition system for the process handle and its
    escalation controller.

    Go values are embedded as follows.  A [uint32] is a [Z] in
    [0, 2^32); a conversion to [uint32] is written out as a reduction
    modulo [2^32].  A pointer that may be nil is an [option].  A panic is
    the [Panic] constructor of [Result].  Code that calls into the
    operating system or into a logging backend threads an explicit
    state. *)

From Stdlib Require Import ZArith List String Ascii Bool Lia DecimalString.
Import ListNotations.
Local Open Scope string_scope.
Local Open Scope Z_scope.

(** ** Panics *)

(** The values the embedded code panics with. *)
Inductive PanicValue : Type :=
| InvalidLogLevel (level : Z)          (* errors.Errorf("invalid LogLevel: %d", level) *)
| InvalidLogrusLevel (lrv : Z)         (* errors.Errorf("invalid logrus LogLevel: %d", lrv) *)
| UnableToGetLevel                     (* l.Panic("unable to get logrus.Level from a %T", l) *)
| IndexOutOfRange (i : Z)              (* runtime error: index out of range *)
| NilDereference.                      (* runtime error: invalid memory address *)

Inductive Result (A : Type) : Type :=
| Ok (a : A)
| Panic (p : PanicValue).
Arguments Ok {A} a.
Arguments Panic {A} p.

Definition bindR {A B : Type} (r : Result A) (k : A -> Result B) : Result B :=
  match r with
  | Ok a => k a
  | Panic p => Panic p
  end.

Notation "x <- r ;; k" := (bindR r (fun x => k))
  (at level 61, r at next level, right associativity).

Definition panics {A : Type} (r : Result A) : Prop :=
  exists p, r = Panic p.

(** ** Machine integers *)

Definition uint32_modulus : Z := 2 ^ 32.

(** The Go conversion [uint32(x)] of an [int]. *)
Definition uint32 (x : Z) : Z := x mod uint32_modulus.

Definition is_uint32 (x : Z) : Prop := 0 <= x < uint32_modulus.

(** ** dlog: log levels *)

Module dlog.

(** [type LogLevel uint32] *)
Definition LogLevel : Type := Z.

(** The [iota] block of the level constants. *)
Definition LogLevelError : LogLevel := 0.
Definition LogLevelWarn  : LogLevel := 1.
Definition LogLevelInfo  : LogLevel := 2.
Definition LogLevelDebug : LogLevel := 3.
Definition LogLevelTrace : LogLevel := 4.

Definition defined_levels : list LogLevel :=
  [LogLevelError; LogLevelWarn; LogLevelInfo; LogLevelDebug; LogLevelTrace].

End dlog.

(** ** runtime: stack frames *)

Module runtime.

(** [runtime.Frame], as far as the caller hook reads it. *)
Record Frame : Type := mkFrame {
  Function : string;
  File : string;
  Line : Z
}.

End runtime.

(** ** logrus: the part of github.com/sirupsen/logrus the wrapper uses *)

Module logrus.

(** [type Level uint32], with the library's constants. *)
Definition Level : Type := Z.

Definition PanicLevel : Level := 0.
Definition FatalLevel : Level := 1.
Definition ErrorLevel : Level := 2.
Definition WarnLevel  : Level := 3.
Definition InfoLevel  : Level := 4.
Definition DebugLevel : Level := 5.
Definition TraceLevel : Level := 6.

(** [*logrus.Logger]: the level it filters at. *)
Record Logger : Type := mkLogger {
  Logger_Level : Level
}.

(** [logger.GetLevel()] reads the level field. *)
Definition GetLevel (lg : Logger) : Level := Logger_Level lg.

(** [*logrus.Entry]: its logger (a pointer), the caller frame that
    logrus recorded (a pointer) and the message. *)
Record Entry : Type := mkEntry {
  Entry_Logger : option Logger;
  Caller : option runtime.Frame;
  Message : string
}.

End logrus.

(** ** dlog: the logrus wrapper (logger_logrus.go) *)

Module logrus_wrapper.
Import dlog.

(** The dynamic type of the [loggerOrEntry] interface value held by a
    [logrusWrapper]; the pointers may be nil. *)
Inductive loggerOrEntry : Type :=
| LogrusLogger (p : option logrus.Logger)
| LogrusEntry (p : option logrus.Entry)
| OtherImpl.

Record logrusWrapper : Type := mkWrapper {
  impl : loggerOrEntry
}.

(** [var dlogLevel2logrusLevel = [5]logrus.Level{...}] *)
Definition dlogLevel2logrusLevel : list logrus.Level :=
  [logrus.ErrorLevel; logrus.WarnLevel; logrus.InfoLevel;
   logrus.DebugLevel; logrus.TraceLevel].

(** Indexing a Go array: out of range panics. *)
Definition index {A : Type} (a : list A) (i : Z) : Result A :=
  if i <? 0 then Panic (IndexOutOfRange i)
  else match nth_error a (Z.to_nat i) with
       | Some x => Ok x
       | None => Panic (IndexOutOfRange i)
       end.

(** [func logrusLevel(level LogLevel) logrus.Level] *)
Definition logrusLevel (level : LogLevel) : Result logrus.Level :=
  if level >? LogLevelTrace
  then Panic (InvalidLogLevel level)
  else index dlogLevel2logrusLevel level.

(** [for i, l := range tbl { if l == lrv { return LogLevel(i) } }]:
    the first index at which [lrv] stands, counting from [i]. *)
Fixpoint rangeFind (i : Z) (tbl : list logrus.Level) (lrv : logrus.Level)
  : option LogLevel :=
  match tbl with
  | [] => None
  | l :: rest => if l =? lrv then Some i else rangeFind (i + 1) rest lrv
  end.

(** [func (l logrusWrapper) MaxLevel() LogLevel] *)
Definition MaxLevel (l : logrusWrapper) : Result LogLevel :=
  ll <- match impl l with
        | LogrusLogger p => Ok p
        | LogrusEntry (Some e) => Ok (logrus.Entry_Logger e)
        | LogrusEntry None => Panic NilDereference
        | OtherImpl => Panic UnableToGetLevel
        end ;;
  match ll with
  | None => Panic NilDereference
  | Some lg =>
      let lrv := logrus.GetLevel lg in
      match rangeFind 0 dlogLevel2logrusLevel lrv with
      | Some i => Ok i
      | None => Panic (InvalidLogrusLevel lrv)
      end
  end.

End logrus_wrapper.

(** ** dlog: the caller hook (logger_logrus.go) *)

Module caller_hook.
Import runtime logrus.

Definition dlogPackageDot : string := "github.com/telepresenceio/dlib/v2/dlog.".
Definition logrusPackageDot : string := "github.com/sirupsen/logrus.".
Definition maximumCallerDepth : nat := 25.
Definition minimumCallerDepth : nat := 2. (* runtime.Callers + getCaller *)

(** [strings.HasPrefix(s, prefix)] *)
Definition HasPrefix (s pre : string) : bool := String.prefix pre s.

(** A goroutine's call stack, innermost frame first. *)
Definition Stack : Type := list Frame.

Definition frame_Callers : Frame := mkFrame "runtime.Callers" "runtime/extern.go" 331.
Definition frame_getCaller : Frame :=
  mkFrame (dlogPackageDot ++ "getCaller") "dlog/logger_logrus.go" 128.

(** [runtime.Callers(skip, pcs)] followed by [runtime.CallersFrames]:
    the frames of the running stack, where frame 0 is [Callers] itself,
    after the first [skip], as many as [pcs] holds. *)
Definition Callers (skip len : nat) (running : Stack) : list Frame :=
  firstn len (skipn skip running).

(** [frames.Next()]: the next frame and whether more frames follow it;
    the zero frame and false when no frame is left. *)
Definition Next (frames : list Frame) : Frame * bool :=
  match frames with
  | [] => (mkFrame "" "" 0, false)
  | f :: rest => (f, match rest with [] => false | _ :: _ => true end)
  end.

(** The loop of [getCaller],
    [for f, again := frames.Next(); again; f, again = frames.Next()]:
    the body runs on a frame only when [Next] reports more frames after
    it, so never on the last captured frame. *)
Fixpoint nextCaller (frames : list Frame) : option Frame :=
  match frames with
  | [] => None
  | f0 :: rest =>
      let '(f, again) := Next (f0 :: rest) in
      if again then
        if HasPrefix (Function f) logrusPackageDot then nextCaller rest
        else if HasPrefix (Function f) dlogPackageDot then nextCaller rest
        else Some f
      else None
  end.

(** [func getCaller() *runtime.Frame], called on the stack [stack] (the
    frame of the function that calls [getCaller] first). *)
Definition getCaller (stack : Stack) : option Frame :=
  let running := frame_Callers :: frame_getCaller :: stack in
  nextCaller (Callers minimumCallerDepth maximumCallerDepth running).

(** [func (logrusFixCallerHook) Fire(entry *logrus.Entry) error]: the
    entry after the call (it is updated in place) and the error
    returned, which is always nil. *)
Definition Fire (stack : Stack) (entry : Entry) : Entry * option string :=
  match Caller entry with
  | Some c =>
      if HasPrefix (Function c) dlogPackageDot
      then (mkEntry (Entry_Logger entry) (getCaller stack) (Message entry), None)
      else (entry, None)
  | None => (entry, None)
  end.

(** Whether a frame belongs to one of the two wrapper packages. *)
Definition wrapper_frame (f : Frame) : bool :=
  HasPrefix (Function f) logrusPackageDot || HasPrefix (Function f) dlogPackageDot.

(** Sample frames: a caller in package main, the hook itself and a
    logging function of dlog; and an entry whose recorded caller is the
    latter. *)
Definition frame_main : Frame := mkFrame "main.main" "main.go" 12.
Definition frame_Fire : Frame :=
  mkFrame (dlogPackageDot ++ "logrusFixCallerHook.Fire") "dlog/logger_logrus.go" 109.
Definition frame_Infof : Frame :=
  mkFrame (dlogPackageDot ++ "Infof") "dlog/convenience.go" 80.
Definition entry_from_dlog : Entry := mkEntry None (Some frame_Infof) "started".

(** The outermost frames of a goroutine that runs [main]. *)
Definition frame_runtime_main : Frame := mkFrame "runtime.main" "runtime/proc.go" 283.
Definition frame_goexit : Frame := mkFrame "runtime.goexit" "runtime/asm_amd64.s" 1700.



End caller_hook.

(** ** dlog: the split logger (split_logger.go) *)

Module split_logger.
Import dlog.

(** A Go value handed to a logging call. *)
Inductive any : Type :=
| Str (s : string)
| Int (z : Z).

Definition Fields : Type := list (string * any).

(** A method call that arrives at a logging backend. *)
Inductive Method : Type :=
| CallHelper
| CallLogMessage (level : LogLevel) (message : string)
| CallLog (level : LogLevel) (args : list any)
| CallLogf (level : LogLevel) (format : string) (args : list any)
| CallLogln (level : LogLevel) (args : list any).

Record Call : Type := mkCall {
  sink : string;
  fields : Fields;
  method : Method
}.

(** The [*log.Logger] a backend hands out for a level. *)
Record StdLog : Type := mkStdLog {
  std_sink : string;
  std_fields : Fields;
  std_level : LogLevel
}.

(** The values of interface type [GenericLogger]:
    - [Backend name fields]: an implementation outside this file that
      keeps the fields attached to it with [WithField], known by its name
      and those fields; all that is observed of it are the calls it
      receives;
    - [SplitLogger outLog errLog]: [splitLogger{outLog, errLog}];
    - [BaseLogger g]: [&BaseLogger{GenericLogger: g}], whose
      [GenericLogger] methods are those of the embedded value;
    - [Fieldless name]: an implementation that keeps no fields, as
      [GenericImpl] is: its [WithField] drops key and value and returns
      the logger itself inside a [BaseLogger]; all that is observed of it
      are the calls it receives. *)
Inductive GenericLogger : Type :=
| Backend (name : string) (fs : Fields)
| SplitLogger (outLog errLog : GenericLogger)
| BaseLogger (g : GenericLogger)
| Fieldless (name : string).

(** [func (l splitLogger) levelLogger(level LogLevel) GenericLogger] *)
Definition levelLogger (outLog errLog : GenericLogger) (level : LogLevel)
  : GenericLogger :=
  if level =? LogLevelError then errLog else outLog.

(** [WithField(key, value)] *)
Fixpoint WithField (l : GenericLogger) (key : string) (value : any)
  : GenericLogger :=
  match l with
  | Backend name fs => Backend name (fs ++ [(key, value)])%list
  | SplitLogger outLog errLog =>
      BaseLogger (SplitLogger (WithField outLog key value)
                              (WithField errLog key value))
  | BaseLogger g => WithField g key value
  | Fieldless name => BaseLogger (Fieldless name)
  end.

(** [Helper()]: the calls that reach the backends. *)
Fixpoint Helper (l : GenericLogger) : list Call :=
  match l with
  | Backend name fs => [mkCall name fs CallHelper]
  | SplitLogger outLog _ => Helper outLog
  | BaseLogger g => Helper g
  | Fieldless name => [mkCall name [] CallHelper]
  end.

(** [Log(level, args...)] *)
Fixpoint Log (l : GenericLogger) (level : LogLevel) (args : list any)
  : list Call :=
  match l with
  | Backend name fs => [mkCall name fs (CallLog level args)]
  | SplitLogger outLog errLog => Log (levelLogger outLog errLog level) level args
  | BaseLogger g => Log g level args
  | Fieldless name => [mkCall name [] (CallLog level args)]
  end.

(** [LogMessage(level, message)]; the split logger passes the message
    on through the sub-logger's [Log]. *)
Fixpoint LogMessage (l : GenericLogger) (level : LogLevel) (message : string)
  : list Call :=
  match l with
  | Backend name fs => [mkCall name fs (CallLogMessage level message)]
  | SplitLogger outLog errLog =>
      Log (levelLogger outLog errLog level) level [Str message]
  | BaseLogger g => LogMessage g level message
  | Fieldless name => [mkCall name [] (CallLogMessage level message)]
  end.

(** [Logf(level, format, args...)] *)
Fixpoint Logf (l : GenericLogger) (level : LogLevel) (format : string)
  (args : list any) : list Call :=
  match l with
  | Backend name fs => [mkCall name fs (CallLogf level format args)]
  | SplitLogger outLog errLog =>
      Logf (levelLogger outLog errLog level) level format args
  | BaseLogger g => Logf g level format args
  | Fieldless name => [mkCall name [] (CallLogf level format args)]
  end.

(** [Logln(level, args...)] *)
Fixpoint Logln (l : GenericLogger) (level : LogLevel) (args : list any)
  : list Call :=
  match l with
  | Backend name fs => [mkCall name fs (CallLogln level args)]
  | SplitLogger outLog errLog => Logln (levelLogger outLog errLog level) level args
  | BaseLogger g => Logln g level args
  | Fieldless name => [mkCall name [] (CallLogln level args)]
  end.

(** [StdLogger(level)] *)
Fixpoint StdLogger (l : GenericLogger) (level : LogLevel) : StdLog :=
  match l with
  | Backend name fs => mkStdLog name fs level
  | SplitLogger outLog errLog => StdLogger (levelLogger outLog errLog level) level
  | BaseLogger g => StdLogger g level
  | Fieldless name => mkStdLog name [] level
  end.

(** [func NewSplitLogger(outLog, errLog GenericLogger) Logger] *)
Definition NewSplitLogger (outLog errLog : GenericLogger) : GenericLogger :=
  BaseLogger (SplitLogger outLog errLog).

(** The backends a logger can reach. *)
Fixpoint sinks (l : GenericLogger) : list string :=
  match l with
  | Backend name _ => [name]
  | SplitLogger outLog errLog => (sinks outLog ++ sinks errLog)%list
  | BaseLogger g => sinks g
  | Fieldless name => [name]
  end.




End split_logger.

(** ** Platform types: golang.org/x/sys/windows, os, os/exec *)

Module windows.

(** Process creation flag and console control event of the Windows API. *)
Definition CREATE_NEW_PROCESS_GROUP : Z := 0x200.
Definition CTRL_C_EVENT : Z := 0.
Definition CTRL_BREAK_EVENT : Z := 1.

(** [syscall.Errno] *)
Definition Errno : Type := Z.

(** [syscall.SysProcAttr] on Windows, as far as [canInterrupt] reads it;
    [CreationFlags] is a [uint32]. *)
Record SysProcAttr : Type := mkSysProcAttr {
  HideWindow : bool;
  CreationFlags : Z
}.

End windows.

Module os.

(** [os.Process] *)
Record Process : Type := mkProcess {
  Pid : Z
}.

(** [os.SyscallError] *)
Record SyscallError : Type := mkSyscallError {
  Syscall : string;
  Err : windows.Errno
}.

End os.

Module exec.

(** [exec.Cmd] *)
Record Cmd : Type := mkCmd {
  Path : string;
  Args : list string;
  SysProcAttr : option windows.SysProcAttr;
  Process : option os.Process
}.

End exec.

(** ** dexec: the interrupt capability (cmd_windows.go) *)

Module dexec.

(** [dexec.Cmd] embeds a [*exec.Cmd]; the selector [c.SysProcAttr] of the
    source goes through that pointer. *)
Record Cmd : Type := mkCmd {
  Cmd_ : option exec.Cmd;
  DisableLogging : bool
}.

(** [func (c *Cmd) canInterrupt() bool]; the conjunction is evaluated
    left to right and stops at the first false operand. *)
Definition canInterrupt (c : option Cmd) : bool :=
  match c with
  | None => false
  | Some c =>
      match Cmd_ c with
      | None => false
      | Some ec =>
          match exec.SysProcAttr ec with
          | None => false
          | Some attr =>
              negb (Z.land (windows.CreationFlags attr)
                           windows.CREATE_NEW_PROCESS_GROUP =? 0)
          end
      end
  end.

(** A command with group isolation, and one without. *)
Definition isolated_cmd : dexec.Cmd :=
  dexec.mkCmd
    (Some (exec.mkCmd "sleep.exe" ["sleep.exe"; "5"]
             (Some (windows.mkSysProcAttr false windows.CREATE_NEW_PROCESS_GROUP))
             None))
    false.

Definition plain_cmd : dexec.Cmd :=
  dexec.mkCmd (Some (exec.mkCmd "sleep.exe" ["sleep.exe"; "5"] None None)) false.

End dexec.

(** ** sigint: the Windows signal bridge (sigint_windows.go) *)

Module sigint.

Section Platform.

(** The state of the operating system, and the system call
    [windows.GenerateConsoleCtrlEvent(ctrlEvent, processGroupID uint32) error]
    acting on it. *)
Variable World : Type.
Variable GenerateConsoleCtrlEvent :
  Z -> Z -> World -> option windows.Errno * World.

(** [func SendInterrupt(proc *os.Process) error] *)
Definition SendInterrupt (proc : option os.Process) (w : World)
  : Result (option os.SyscallError) * World :=
  match proc with
  | None => (Panic NilDereference, w)
  | Some p =>
      let '(err, w') :=
        GenerateConsoleCtrlEvent windows.CTRL_BREAK_EVENT (uint32 (os.Pid p)) w in
      match err with
      | Some e => (Ok (Some (os.mkSyscallError "GenerateConsoleCtrlEvent" e)), w')
      | None => (Ok None, w')
      end
  end.

End Platform.

(** A console to run [SendInterrupt] against: the process groups that
    exist, and the control events delivered so far (latest last).  The
    call fails with ERROR_INVALID_PARAMETER for a group that does not
    exist. *)
Record Console : Type := mkConsole {
  groups : list Z;
  delivered : list (Z * Z)
}.

Definition ERROR_INVALID_PARAMETER : windows.Errno := 87.

Definition console_GenerateConsoleCtrlEvent (ctrlEvent processGroupID : Z)
  (w : Console) : option windows.Errno * Console :=
  if existsb (Z.eqb processGroupID) (groups w)
  then (None, mkConsole (groups w) (delivered w ++ [(ctrlEvent, processGroupID)])%list)
  else (Some ERROR_INVALID_PARAMETER, w).

End sigint.

(** ** The process handle and its escalation controller *)

Module escalation.

(** Modelled from the spec: the two relayed streams of a started process
    (section 4.3); [ProcessHandle] and [EscalationController] live in
    dexec/cmd.go, which is not among the sources. *)
Inductive Stream : Type := Stdout | Stderr.

(** Modelled from the spec: the process's own exit status, an exit code
    and the signal that ended it when it was signaled (section 6, result
    contract). *)
Record ExitStatus : Type := mkExitStatus {
  exitCode : Z;
  signaled : option Z
}.

(** Modelled from the spec: the lifecycle of a RunningProcess,
    [Created -> Running -> {Exited | Killed | Errored}] (section 3).  The
    spec does not say which event leads to [Errored]; here it is the
    failure to spawn. *)
Inductive Lifecycle : Type := Created | Running | Exited | Killed | Errored.

(** Modelled from the spec: the states of the EscalationController,
    [Running -> InterruptSent -> Killed -> Reaped] or
    [Running -> ExitedNaturally -> Reaped] (section 4.4). *)
Inductive Controller : Type :=
| CtlRunning | InterruptSent | CtlKilled | ExitedNaturally | Reaped.

(** Modelled from the spec: why the soft interrupt was not delivered
    (section 7): the process had already exited, or the platform call
    failed otherwise, with the error [sigint.SendInterrupt] returns. *)
Inductive SignalError : Type :=
| ProcessAlreadyExited
| PlatformFailure (e : os.SyscallError).

(** Modelled from the spec: the errors collected in the composite result
    (section 7). *)
Inductive Error : Type :=
| SpawnError (reason : string)
| SignalDeliveryError (e : SignalError)
| StdioRelayError (s : Stream) (reason : string).

(** Modelled from the spec: the leveled events sent to the logging
    collaborator (section 6). *)
Inductive LogEvent : Type :=
| LogProcessStarted
| LogInterruptSent
| LogProcessKilled
| LogRelayError (s : Stream)
| LogSignalFailed (e : os.SyscallError).

(** Modelled from the spec: what the handle and its controller do to the
    outside: deliver the soft interrupt, issue the hard kill, release the
    OS resources of the process, log, and move the RunningProcess into a
    terminal state. *)
Inductive Action : Type :=
| DoSendInterrupt
| DoHardKill
| DoRelease
| DoLog (ev : LogEvent)
| EnterTerminal (l : Lifecycle).

(** Modelled from the spec: the composite result of [Wait] (sections 4.3
    and 6). *)
Record WaitResult : Type := mkWaitResult {
  exitStatus : ExitStatus;
  killedByController : bool;
  errors : list Error
}.

(** Modelled from the spec: what happens to a handle, in any order the
    scheduler and the operating system choose (section 5):
    - [Start spawn]: [Start()] returns, with a spawn error or without;
    - [CancelRequest]: the caller's cancellation input fires, or fires
      again;
    - [ObserveCancel outcome]: the controller's task takes the
      cancellation branch; [outcome] is what the signal bridge answers if
      it is called;
    - [GraceExpired]: the grace timer fires;
    - [ProcessExits st]: the operating system ends the process;
    - [ObserveExit]: the exit is detected;
    - [RelayFinished s err]: the relay task of stream [s] ends;
    - [WaitReturns]: [Wait()] returns. *)
Inductive Event : Type :=
| Start (spawn : option string)
| CancelRequest
| ObserveCancel (outcome : option SignalError)
| GraceExpired
| ProcessExits (st : ExitStatus)
| ObserveExit
| RelayFinished (s : Stream) (err : option string)
| WaitReturns.

(** Modelled from the spec: a process handle with its controller.
    [actions] has the latest action first. *)
Record State : Type := mkState {
  lifecycle : Lifecycle;
  ctl : Controller;
  cancelled : bool;
  os_status : option ExitStatus;
  stdout_done : bool;
  stderr_done : bool;
  killed_by_controller : bool;
  errs : list Error;
  actions : list Action;
  wait_result : option WaitResult
}.

(** Modelled from the spec: a handle before [Start]. *)
Definition init : State :=
  mkState Created CtlRunning false None false false false [] [] None.

(** Modelled from the spec: whether the relay of a stream has finished. *)
Definition relay_done (s : State) (st : Stream) : bool :=
  match st with
  | Stdout => stdout_done s
  | Stderr => stderr_done s
  end.

(** Modelled from the spec: the terminal states of the lifecycle. *)
Definition terminal (l : Lifecycle) : bool :=
  match l with
  | Exited | Killed | Errored => true
  | Created | Running => false
  end.

(** Modelled from the spec: a process that was started and has been seen
    to exit. *)
Definition exit_observed (l : Lifecycle) : bool :=
  match l with
  | Exited | Killed => true
  | _ => false
  end.

(** Modelled from the spec: what the controller records for the answer
    of the signal bridge (sections 4.4 and 7): a failure because the
    process had already exited is dropped; any other failure is logged
    and attached. *)
Definition record_signal (outcome : option SignalError) (s : State)
  : list Error * list Action :=
  match outcome with
  | None => (errs s, DoLog LogInterruptSent :: DoSendInterrupt :: actions s)
  | Some ProcessAlreadyExited => (errs s, DoSendInterrupt :: actions s)
  | Some (PlatformFailure e) =>
      (SignalDeliveryError (PlatformFailure e) :: errs s,
       DoLog (LogSignalFailed e) :: DoSendInterrupt :: actions s)
  end.

(** Modelled from the spec: the bridge can answer that the process had
    already exited only if it has. *)
Definition outcome_possible (outcome : option SignalError) (s : State) : bool :=
  match outcome, os_status s with
  | Some ProcessAlreadyExited, None => false
  | _, _ => true
  end.

(** Modelled from the spec: one step of the handle and its controller
    for the command [cmd] (sections 4.3, 4.4, 5 and 7); [None] when the
    event cannot happen in the state.  The capability is the source's
    [dexec.canInterrupt]. *)
Definition step (cmd : dexec.Cmd) (s : State) (ev : Event) : option State :=
  match ev with
  | Start None =>
      match lifecycle s with
      | Created =>
          Some (mkState Running (ctl s) (cancelled s) (os_status s)
                  (stdout_done s) (stderr_done s) (killed_by_controller s)
                  (errs s) (DoLog LogProcessStarted :: actions s) (wait_result s))
      | _ => None
      end
  | Start (Some reason) =>
      match lifecycle s with
      | Created =>
          Some (mkState Errored (ctl s) (cancelled s) (os_status s)
                  (stdout_done s) (stderr_done s) (killed_by_controller s)
                  (SpawnError reason :: errs s)
                  (EnterTerminal Errored :: actions s) (wait_result s))
      | _ => None
      end
  | CancelRequest =>
      Some (mkState (lifecycle s) (ctl s) true (os_status s)
              (stdout_done s) (stderr_done s) (killed_by_controller s)
              (errs s) (actions s) (wait_result s))
  | ObserveCancel outcome =>
      match cancelled s, lifecycle s, ctl s with
      | true, Running, CtlRunning =>
          if dexec.canInterrupt (Some cmd) then
            if outcome_possible outcome s then
              let '(es, acts) := record_signal outcome s in
              Some (mkState Running InterruptSent true (os_status s)
                      (stdout_done s) (stderr_done s) (killed_by_controller s)
                      es acts (wait_result s))
            else None
          else
            match outcome with
            | None =>
                Some (mkState Running CtlKilled true (os_status s)
                        (stdout_done s) (stderr_done s) true (errs s)
                        (DoLog LogProcessKilled :: DoHardKill :: actions s)
                        (wait_result s))
            | Some _ => None
            end
      | _, _, _ => None
      end
  | GraceExpired =>
      match lifecycle s, ctl s with
      | Running, InterruptSent =>
          Some (mkState Running CtlKilled (cancelled s) (os_status s)
                  (stdout_done s) (stderr_done s) true (errs s)
                  (DoLog LogProcessKilled :: DoHardKill :: actions s)
                  (wait_result s))
      | _, _ => None
      end
  | ProcessExits st =>
      match lifecycle s, os_status s with
      | Running, None =>
          Some (mkState Running (ctl s) (cancelled s) (Some st)
                  (stdout_done s) (stderr_done s) (killed_by_controller s)
                  (errs s) (actions s) (wait_result s))
      | _, _ => None
      end
  | ObserveExit =>
      match lifecycle s, os_status s with
      | Running, Some _ =>
          match ctl s with
          | CtlKilled =>
              Some (mkState Killed CtlKilled (cancelled s) (os_status s)
                      (stdout_done s) (stderr_done s) (killed_by_controller s)
                      (errs s) (EnterTerminal Killed :: actions s) (wait_result s))
          | _ =>
              Some (mkState Exited ExitedNaturally (cancelled s) (os_status s)
                      (stdout_done s) (stderr_done s) (killed_by_controller s)
                      (errs s) (EnterTerminal Exited :: actions s) (wait_result s))
          end
      | _, _ => None
      end
  | RelayFinished st err =>
      match lifecycle s with
      | Running | Exited | Killed =>
          if relay_done s st then None
          else
            let es := match err with
                      | Some reason => StdioRelayError st reason :: errs s
                      | None => errs s
                      end in
            let acts := match err with
                        | Some _ => DoLog (LogRelayError st) :: actions s
                        | None => actions s
                        end in
            Some (mkState (lifecycle s) (ctl s) (cancelled s) (os_status s)
                    (match st with Stdout => true | Stderr => stdout_done s end)
                    (match st with Stderr => true | Stdout => stderr_done s end)
                    (killed_by_controller s) es acts (wait_result s))
      | _ => None
      end
  | WaitReturns =>
      match os_status s, wait_result s with
      | Some st, None =>
          if exit_observed (lifecycle s) && stdout_done s && stderr_done s then
            Some (mkState (lifecycle s) Reaped (cancelled s) (os_status s)
                    (stdout_done s) (stderr_done s) (killed_by_controller s)
                    (errs s) (DoRelease :: actions s)
                    (Some (mkWaitResult st (killed_by_controller s) (errs s))))
          else None
      | _, _ => None
      end
  end.

(** Modelled from the spec: the handle after a sequence of events, in
    the order given; [None] when one of them cannot happen. *)
Fixpoint run (cmd : dexec.Cmd) (s : State) (evs : list Event) : option State :=
  match evs with
  | [] => Some s
  | ev :: rest =>
      match step cmd s ev with
      | Some s' => run cmd s' rest
      | None => None
      end
  end.

(** Modelled from the spec: counting the actions of one kind. *)
Definition count (p : Action -> bool) (acts : list Action) : nat :=
  List.length (filter p acts).

(** Modelled from the spec: the four kinds of action that are counted. *)
Definition is_interrupt (a : Action) : bool :=
  match a with DoSendInterrupt => true | _ => false end.
Definition is_kill (a : Action) : bool :=
  match a with DoHardKill => true | _ => false end.
Definition is_release (a : Action) : bool :=
  match a with DoRelease => true | _ => false end.
Definition is_terminal (a : Action) : bool :=
  match a with EnterTerminal _ => true | _ => false end.

(** Modelled from the spec: a run without cancellation. *)
Definition is_cancel (ev : Event) : bool :=
  match ev with CancelRequest => true | _ => false end.


(** *** Invariants of the runs *)

(** The counters of the four kinds of action. *)
Record counts_inv (s : State) : Prop := mk_counts_inv {
  ci_int : (count is_interrupt (actions s) <= 1)%nat;
  ci_kill : (count is_kill (actions s) <= 1)%nat;
  ci_rel : (count is_release (actions s) <= 1)%nat;
  ci_fresh : ctl s = CtlRunning ->
             count is_interrupt (actions s) = 0%nat /\ count is_kill (actions s) = 0%nat;
  ci_sent : ctl s = InterruptSent ->
            count is_kill (actions s) = 0%nat /\ cancelled s = true;
  ci_calm : cancelled s = false ->
            count is_interrupt (actions s) = 0%nat /\ count is_kill (actions s) = 0%nat;
  ci_wait : wait_result s = None -> count is_release (actions s) = 0%nat;
  ci_live : terminal (lifecycle s) = false -> count is_terminal (actions s) = 0%nat;
  ci_term : terminal (lifecycle s) = true -> count is_terminal (actions s) = 1%nat
}.

(** What the state remembers of the events so far. *)
Record history_inv (evs : list Event) (s : State) : Prop := mk_history_inv {
  hi_alive : os_status s = None -> forall st, ~ In (ProcessExits st) evs;
  hi_exited : forall st, os_status s = Some st ->
              In (ProcessExits st) evs /\
              forall st', In (ProcessExits st') evs -> st' = st;
  hi_stdout : stdout_done s = true -> exists err, In (RelayFinished Stdout err) evs;
  hi_stderr : stderr_done s = true -> exists err, In (RelayFinished Stderr err) evs;
  hi_observed : exit_observed (lifecycle s) = true -> os_status s <> None;
  hi_cancel : cancelled s = true -> existsb is_cancel evs = true;
  hi_kill : killed_by_controller s = true -> cancelled s = true;
  hi_sent : ctl s = InterruptSent -> cancelled s = true
}.


(** Modelled from the spec: the state a run from [init] ends in ([init]
    itself when the run is not possible). *)
Definition final (cmd : dexec.Cmd) (evs : list Event) : State :=
  match run cmd init evs with
  | Some s => s
  | None => init
  end.


Definition escalated_run : list Event :=
  [Start None; CancelRequest; CancelRequest; ObserveCancel None; CancelRequest;
   GraceExpired; ProcessExits (mkExitStatus (-1) (Some 9)); ObserveExit;
   RelayFinished Stdout None; RelayFinished Stderr None; WaitReturns].



Definition raced_run : list Event :=
  [Start None; ProcessExits (mkExitStatus 0 None); CancelRequest;
   ObserveCancel (Some ProcessAlreadyExited); ObserveExit;
   RelayFinished Stdout None; RelayFinished Stderr None; WaitReturns].

End escalation.

(** ** dlog: the logging methods of the logrus wrapper (logger_logrus.go) *)

Module logrus_methods.
Import dlog logrus_wrapper.

(** [logrus.AllLevels] *)
Definition AllLevels : list logrus.Level :=
  [logrus.PanicLevel; logrus.FatalLevel; logrus.ErrorLevel; logrus.WarnLevel;
   logrus.InfoLevel; logrus.DebugLevel; logrus.TraceLevel].

(** [func (logrusFixCallerHook) Levels() []logrus.Level] *)
Definition Levels : list logrus.Level := AllLevels.

(** A method call on the [loggerOrEntry] a wrapper holds. *)
Inductive BackendCall : Type :=
| LrLog (level : logrus.Level) (args : list split_logger.any)
| LrLogf (level : logrus.Level) (format : string) (args : list split_logger.any)
| LrLogln (level : logrus.Level) (args : list split_logger.any)
| LrWriterLevel (level : logrus.Level).

Definition call_level (c : BackendCall) : logrus.Level :=
  match c with
  | LrLog level _ | LrLogf level _ _ | LrLogln level _ | LrWriterLevel level => level
  end.

(** The call together with the value it is made on. *)
Record Received : Type := mkReceived {
  receiver : loggerOrEntry;
  call : BackendCall
}.

(** [func (l logrusWrapper) Log(level LogLevel, args ...any)]; the level
    is converted before the call is made, so a panic of the conversion
    leaves the backend untouched. *)
Definition Log (l : logrusWrapper) (level : LogLevel) (args : list split_logger.any)
  : Result Received :=
  lv <- logrusLevel level ;; Ok (mkReceived (impl l) (LrLog lv args)).

(** [func (l logrusWrapper) Logf(level LogLevel, format string, args ...any)] *)
Definition Logf (l : logrusWrapper) (level : LogLevel) (format : string)
  (args : list split_logger.any) : Result Received :=
  lv <- logrusLevel level ;; Ok (mkReceived (impl l) (LrLogf lv format args)).

(** [func (l logrusWrapper) Logln(level LogLevel, args ...any)] *)
Definition Logln (l : logrusWrapper) (level : LogLevel) (args : list split_logger.any)
  : Result Received :=
  lv <- logrusLevel level ;; Ok (mkReceived (impl l) (LrLogln lv args)).

(** [func (l logrusWrapper) LogMessage(level LogLevel, message string)] *)
Definition LogMessage (l : logrusWrapper) (level : LogLevel) (message : string)
  : Result Received :=
  Log l level [split_logger.Str message].

(** The [*log.Logger] made by [log.New(out, prefix, flag)]. *)
Record GoLogger : Type := mkGoLogger {
  out : Received;
  prefix : string;
  flag : Z
}.

(** [func (l logrusWrapper) StdLogger(level LogLevel) *log.Logger] *)
Definition StdLogger (l : logrusWrapper) (level : LogLevel) : Result GoLogger :=
  lv <- logrusLevel level ;;
  Ok (mkGoLogger (mkReceived (impl l) (LrWriterLevel lv)) "" 0).

End logrus_methods.

(** ** dlog: GenericImpl *)

Module generic_impl.
Import dlog.

(** A method call on the [PlainLogger] that a [GenericImpl] embeds. *)
Inductive PlainCall : Type :=
| PlainHelper
| PlainLogMessage (level : LogLevel) (message : string).

(** The slice expression [msg[:hi]] of a string; [None] is the run-time
    panic for bounds out of range. *)
Definition slice_to (msg : string) (hi : Z) : option string :=
  if (hi <? 0) || (Z.of_nat (String.length msg) <? hi)
  then None
  else Some (substring 0 (Z.to_nat hi) msg).

Section Fmt.

(** [fmt.Sprint], [fmt.Sprintf] and [fmt.Sprintln]. *)
Variable Sprint : list split_logger.any -> string.
Variable Sprintf : string -> list split_logger.any -> string.
Variable Sprintln : list split_logger.any -> string.

(** [func (l GenericImpl) Log(level LogLevel, args ...any)]: the calls
    made on the embedded logger, in order. *)
Definition Log (level : LogLevel) (args : list split_logger.any) : list PlainCall :=
  [PlainHelper; PlainLogMessage level (Sprint args)].

(** [func (l GenericImpl) Logf(level LogLevel, format string, args ...any)] *)
Definition Logf (level : LogLevel) (format : string) (args : list split_logger.any)
  : list PlainCall :=
  [PlainHelper; PlainLogMessage level (Sprintf format args)].

(** [func (l GenericImpl) Logln(level LogLevel, args ...any)]: the calls
    made on the embedded logger, and whether the slice expression
    panicked. *)
Definition Logln (level : LogLevel) (args : list split_logger.any)
  : list PlainCall * bool :=
  let msg := Sprintln args in
  match slice_to msg (Z.of_nat (String.length msg) - 1) with
  | Some m => ([PlainHelper; PlainLogMessage level m], false)
  | None => ([PlainHelper], true)
  end.

End Fmt.

(** A [Sprintln] to run [Logln] with: the operands in their default
    format, a space between any two, and a newline at the end. *)
Definition show (a : split_logger.any) : string :=
  match a with
  | split_logger.Str s => s
  | split_logger.Int z => NilZero.string_of_int (Z.to_int z)
  end.

Definition newline : string := String (ascii_of_nat 10) "".

Definition sample_Sprintln (args : list split_logger.any) : string :=
  (String.concat " " (map show args) ++ newline)%string.

End generic_impl.

(** * Properties *)

(** ** The level conversion and its inverse *)

Module LevelFacts.
Import dlog logrus_wrapper.

Lemma level_cases (level : LogLevel) :
  0 <= level <= LogLevelTrace ->
  level = LogLevelError \/ level = LogLevelWarn \/ level = LogLevelInfo \/
  level = LogLevelDebug \/ level = LogLevelTrace.
Proof.
  unfold LogLevelError, LogLevelWarn, LogLevelInfo, LogLevelDebug, LogLevelTrace.
  lia.
Qed.

Lemma logrusLevel_defined (level : LogLevel) :
  0 <= level <= LogLevelTrace ->
  logrusLevel level = Ok (level + logrus.ErrorLevel).
Proof.
  intros H.
  destruct (level_cases level H) as [E | [E | [E | [E | E]]]];
    rewrite E; reflexivity.
Qed.

Lemma logrusLevel_invalid (level : LogLevel) :
  level > LogLevelTrace ->
  logrusLevel level = Panic (InvalidLogLevel level).
Proof.
  intros H. unfold logrusLevel.
  destruct (level >? LogLevelTrace) eqn:E; [reflexivity |].
  rewrite Z.gtb_ltb, Z.ltb_ge in E. lia.
Qed.

(** The table holds each logrus level once: looking up the level stored
    at a valid index finds that index. *)
Lemma rangeFind_table (level : LogLevel) :
  0 <= level <= LogLevelTrace ->
  rangeFind 0 dlogLevel2logrusLevel (level + logrus.ErrorLevel) = Some level.
Proof.
  intros H.
  destruct (level_cases level H) as [E | [E | [E | [E | E]]]];
    rewrite E; reflexivity.
Qed.

(** C9: for every LogLevel (a uint32) up to LogLevelTrace, [logrusLevel]
    returns the corresponding logrus level (Error to ErrorLevel, Warn to
    WarnLevel, Info to InfoLevel, Debug to DebugLevel, Trace to
    TraceLevel) and does not panic; for every LogLevel above
    LogLevelTrace it panics with "invalid LogLevel"; and for the five
    defined constants the panic is not reached. *)
Theorem logrusLevel_total_on_defined_levels :
  forall level : LogLevel,
    is_uint32 level ->
    (level <= LogLevelTrace ->
       exists lv, logrusLevel level = Ok lv /\
         In (level, lv)
            [(LogLevelError, logrus.ErrorLevel); (LogLevelWarn, logrus.WarnLevel);
             (LogLevelInfo, logrus.InfoLevel); (LogLevelDebug, logrus.DebugLevel);
             (LogLevelTrace, logrus.TraceLevel)]) /\
    (level > LogLevelTrace -> logrusLevel level = Panic (InvalidLogLevel level)) /\
    (In level defined_levels -> ~ panics (logrusLevel level)).
Proof.
  intros level [Hlo _]. split; [| split].
  - intros Hle.
    destruct (level_cases level (conj Hlo Hle)) as [E | [E | [E | [E | E]]]];
      rewrite E; eexists; (split; [reflexivity |]); simpl; tauto.
  - apply logrusLevel_invalid.
  - intros Hin [p Hp].
    assert (Hr : 0 <= level <= LogLevelTrace).
    { unfold defined_levels in Hin; simpl in Hin.
      unfold LogLevelError, LogLevelWarn, LogLevelInfo, LogLevelDebug,
        LogLevelTrace in *. lia. }
    rewrite (logrusLevel_defined level Hr) in Hp. discriminate Hp.
Qed.

Lemma logrusLevel_total_on_defined_levels_witness :
  (exists lv, logrusLevel LogLevelDebug = Ok lv /\
     In (LogLevelDebug, lv)
        [(LogLevelError, logrus.ErrorLevel); (LogLevelWarn, logrus.WarnLevel);
         (LogLevelInfo, logrus.InfoLevel); (LogLevelDebug, logrus.DebugLevel);
         (LogLevelTrace, logrus.TraceLevel)]) /\
  ~ panics (logrusLevel LogLevelDebug).
Proof.
  assert (U : is_uint32 LogLevelDebug) by (unfold is_uint32, uint32_modulus, LogLevelDebug; lia).
  destruct (logrusLevel_total_on_defined_levels LogLevelDebug U) as [H1 [_ H3]].
  split.
  - apply H1. vm_compute. discriminate.
  - apply H3. simpl. tauto.
Defined.

(** C10: [MaxLevel] is a left inverse of [logrusLevel]: when the wrapper
    holds a logrus logger, or an entry of one, whose level is
    [logrusLevel l] for a LogLevel [l] from Error to Trace, [MaxLevel]
    returns [l]. *)
Theorem MaxLevel_left_inverse :
  forall (w : logrusWrapper) (lg : logrus.Logger) (l : LogLevel),
    LogLevelError <= l <= LogLevelTrace ->
    (impl w = LogrusLogger (Some lg) \/
     exists e, impl w = LogrusEntry (Some e) /\ logrus.Entry_Logger e = Some lg) ->
    logrusLevel l = Ok (logrus.GetLevel lg) ->
    MaxLevel w = Ok l.
Proof.
  intros w lg l Hl Hw Hlv.
  rewrite (logrusLevel_defined l Hl) in Hlv. injection Hlv as Hlv.
  assert (Hfind : rangeFind 0 dlogLevel2logrusLevel (logrus.GetLevel lg) = Some l)
    by (rewrite <- Hlv; apply rangeFind_table; exact Hl).
  unfold MaxLevel.
  destruct Hw as [Hw | [e [Hw He]]]; rewrite Hw; cbv beta iota delta [bindR].
  - rewrite Hfind. reflexivity.
  - rewrite He, Hfind. reflexivity.
Qed.

Lemma MaxLevel_left_inverse_witness :
  MaxLevel (mkWrapper (LogrusEntry (Some
     (logrus.mkEntry (Some (logrus.mkLogger logrus.InfoLevel)) None "started"))))
  = Ok LogLevelInfo.
Proof.
  apply (MaxLevel_left_inverse _ (logrus.mkLogger logrus.InfoLevel) LogLevelInfo).
  - vm_compute. split; discriminate.
  - right. eexists. split; reflexivity.
  - reflexivity.
Defined.

Example logrusLevel_of_7 :
  logrusLevel 7 = Panic (InvalidLogLevel 7).
Proof. reflexivity. Qed.

Example MaxLevel_of_fatal_logger :
  MaxLevel (mkWrapper (LogrusLogger (Some (logrus.mkLogger logrus.FatalLevel))))
  = Panic (InvalidLogrusLevel logrus.FatalLevel).
Proof. reflexivity. Qed.

Example MaxLevel_of_nil_logger :
  MaxLevel (mkWrapper (LogrusLogger None)) = Panic NilDereference.
Proof. reflexivity. Qed.

End LevelFacts.

(** ** The split logger *)

Module SplitFacts.
Import dlog split_logger.

Lemma levelLogger_error (outLog errLog : GenericLogger) :
  levelLogger outLog errLog LogLevelError = errLog.
Proof. reflexivity. Qed.

Lemma levelLogger_other (outLog errLog : GenericLogger) (level : LogLevel) :
  level <> LogLevelError -> levelLogger outLog errLog level = outLog.
Proof.
  intros H. unfold levelLogger.
  destruct (Z.eqb_spec level LogLevelError); [contradiction | reflexivity].
Qed.

(** Induction over the logger for a method that the split logger passes
    on to the sub-logger of the level. *)
Ltac by_sub_logger l level :=
  induction l as [name fs | o IHo e IHe | g IHg | name]; simpl;
  [ intros c [<- | []]; simpl; auto
  | intros c Hc; apply in_or_app; unfold levelLogger in Hc;
    destruct (level =? LogLevelError); [right; apply IHe | left; apply IHo];
    exact Hc
  | exact IHg
  | intros c [<- | []]; simpl; auto ].

(** Calls made through a logger arrive at its own backends only. *)
Lemma Log_sinks (l : GenericLogger) (level : LogLevel) (args : list any) :
  forall c, In c (Log l level args) -> In (sink c) (sinks l).
Proof. by_sub_logger l level. Qed.

Lemma Logf_sinks (l : GenericLogger) (level : LogLevel) (format : string)
  (args : list any) :
  forall c, In c (Logf l level format args) -> In (sink c) (sinks l).
Proof. by_sub_logger l level. Qed.

Lemma Logln_sinks (l : GenericLogger) (level : LogLevel) (args : list any) :
  forall c, In c (Logln l level args) -> In (sink c) (sinks l).
Proof. by_sub_logger l level. Qed.

Lemma StdLogger_sinks (l : GenericLogger) (level : LogLevel) :
  In (std_sink (StdLogger l level)) (sinks l).
Proof.
  induction l as [name fs | o IHo e IHe | g IHg | name]; simpl.
  - auto.
  - apply in_or_app. unfold levelLogger.
    destruct (level =? LogLevelError); [right; apply IHe | left; apply IHo].
  - apply IHg.
  - auto.
Qed.

(** Induction over the logger for a statement about one method, the
    sub-logger of the level being the only one that matters. *)
Ltac by_level l level :=
  induction l as [name fs | o IHo e IHe | g IHg | name]; simpl;
  [ try (eexists; repeat split; simpl; auto; fail); try reflexivity
  | unfold levelLogger in *; destruct (level =? LogLevelError); simpl; auto
  | auto
  | try (eexists; repeat split; simpl; auto; fail); try reflexivity ].

(** Each logging operation makes one call, with what it was given. *)
Lemma Log_one_call (l : GenericLogger) (level : LogLevel) (args : list any) :
  exists c, Log l level args = [c] /\ method c = CallLog level args.
Proof. by_level l level. Qed.

Lemma Logf_one_call (l : GenericLogger) (level : LogLevel) (format : string)
  (args : list any) :
  exists c, Logf l level format args = [c] /\ method c = CallLogf level format args.
Proof. by_level l level. Qed.

Lemma Logln_one_call (l : GenericLogger) (level : LogLevel) (args : list any) :
  exists c, Logln l level args = [c] /\ method c = CallLogln level args.
Proof. by_level l level. Qed.

(** The one call of a sub-logger, as a call that the split logger made
    on one of that sub-logger's backends. *)
Lemma one_call_at (calls : list Call) (m : Method) (names : list string) :
  (exists c, calls = [c] /\ method c = m) ->
  (forall c, In c calls -> In (sink c) names) ->
  exists c, calls = [c] /\ method c = m /\ In (sink c) names.
Proof.
  intros [c [E M]] Hs. exists c. split; [exact E |]. split; [exact M |].
  apply Hs. rewrite E. simpl. auto.
Qed.

(** C8: every logging operation of the split logger goes to the
    sub-logger [levelLogger] chooses, which is [errLog] exactly when the
    level is LogLevelError and [outLog] for every other level.  [Log],
    [Logf], [Logln] and [StdLogger] call the same method of that
    sub-logger and [LogMessage] calls its [Log] with the message as the
    one argument; the call is made, once, with the level and the
    arguments given, on a backend of that sub-logger and on no other; a
    sub-logger that is a backend receives exactly that call.
    [WithField] passes the same key and value to both sub-loggers. *)
Theorem splitLogger_dispatch :
  forall (outLog errLog : GenericLogger) (level : LogLevel),
    (level = LogLevelError -> levelLogger outLog errLog level = errLog) /\
    (level <> LogLevelError -> levelLogger outLog errLog level = outLog) /\
    (forall args,
       Log (SplitLogger outLog errLog) level args
       = Log (levelLogger outLog errLog level) level args) /\
    (forall format args,
       Logf (SplitLogger outLog errLog) level format args
       = Logf (levelLogger outLog errLog level) level format args) /\
    (forall args,
       Logln (SplitLogger outLog errLog) level args
       = Logln (levelLogger outLog errLog level) level args) /\
    (forall message,
       LogMessage (SplitLogger outLog errLog) level message
       = Log (levelLogger outLog errLog level) level [Str message]) /\
    StdLogger (SplitLogger outLog errLog) level
    = StdLogger (levelLogger outLog errLog level) level /\
    In (std_sink (StdLogger (SplitLogger outLog errLog) level))
       (sinks (levelLogger outLog errLog level)) /\
    (forall args format message c,
       In c (Log (SplitLogger outLog errLog) level args
             ++ Logf (SplitLogger outLog errLog) level format args
             ++ Logln (SplitLogger outLog errLog) level args
             ++ LogMessage (SplitLogger outLog errLog) level message)%list ->
       In (sink c) (sinks (levelLogger outLog errLog level))) /\
    (forall args format message,
       (exists c, Log (SplitLogger outLog errLog) level args = [c] /\
                  method c = CallLog level args /\
                  In (sink c) (sinks (levelLogger outLog errLog level))) /\
       (exists c, Logf (SplitLogger outLog errLog) level format args = [c] /\
                  method c = CallLogf level format args /\
                  In (sink c) (sinks (levelLogger outLog errLog level))) /\
       (exists c, Logln (SplitLogger outLog errLog) level args = [c] /\
                  method c = CallLogln level args /\
                  In (sink c) (sinks (levelLogger outLog errLog level))) /\
       (exists c, LogMessage (SplitLogger outLog errLog) level message = [c] /\
                  method c = CallLog level [Str message] /\
                  In (sink c) (sinks (levelLogger outLog errLog level)))) /\
    (forall name fs,
       levelLogger outLog errLog level = Backend name fs ->
       forall args format message,
         Log (SplitLogger outLog errLog) level args
         = [mkCall name fs (CallLog level args)] /\
         Logf (SplitLogger outLog errLog) level format args
         = [mkCall name fs (CallLogf level format args)] /\
         Logln (SplitLogger outLog errLog) level args
         = [mkCall name fs (CallLogln level args)] /\
         LogMessage (SplitLogger outLog errLog) level message
         = [mkCall name fs (CallLog level [Str message])] /\
         StdLogger (SplitLogger outLog errLog) level = mkStdLog name fs level) /\
    (forall key value,
       WithField (SplitLogger outLog errLog) key value
       = BaseLogger (SplitLogger (WithField outLog key value)
                                 (WithField errLog key value))).
Proof.
  intros outLog errLog level.
  split; [intros ->; apply levelLogger_error |].
  split; [apply levelLogger_other |].
  do 5 (split; [reflexivity |]).
  split; [exact (StdLogger_sinks (levelLogger outLog errLog level) level) |].
  split; [| split; [| split; [| reflexivity]]].
  - intros args format message c Hc. simpl in Hc.
    repeat (apply in_app_or in Hc; destruct Hc as [Hc | Hc]).
    + eapply Log_sinks; exact Hc.
    + eapply Logf_sinks; exact Hc.
    + eapply Logln_sinks; exact Hc.
    + eapply Log_sinks; exact Hc.
  - intros args format message. cbn [Log Logf Logln LogMessage].
    split; [| split; [| split]]; apply one_call_at.
    + apply Log_one_call.
    + apply Log_sinks.
    + apply Logf_one_call.
    + apply Logf_sinks.
    + apply Logln_one_call.
    + apply Logln_sinks.
    + apply Log_one_call.
    + apply Log_sinks.
  - intros name fs E args format message.
    cbn [Log Logf Logln LogMessage StdLogger]. rewrite E.
    repeat split; reflexivity.
Qed.

Lemma splitLogger_dispatch_witness :
  Log (SplitLogger (Backend "stdout" []) (Backend "stderr" []))
      LogLevelError [Str "boom"]
  = [mkCall "stderr" [] (CallLog LogLevelError [Str "boom"])] /\
  LogMessage (SplitLogger (Backend "stdout" []) (Backend "stderr" []))
      LogLevelInfo "started"
  = [mkCall "stdout" [] (CallLog LogLevelInfo [Str "started"])].
Proof.
  split.
  - destruct (splitLogger_dispatch (Backend "stdout" []) (Backend "stderr" [])
                LogLevelError) as [H [_ [_ [_ [_ [_ [_ [_ [_ [_ [B _]]]]]]]]]]].
    apply (B "stderr" [] (H eq_refl) [Str "boom"] "" "").
  - destruct (splitLogger_dispatch (Backend "stdout" []) (Backend "stderr" [])
                LogLevelInfo) as [_ [H [_ [_ [_ [_ [_ [_ [_ [_ [B _]]]]]]]]]]].
    assert (N : LogLevelInfo <> LogLevelError) by (vm_compute; discriminate).
    apply (B "stdout" [] (H N) [] "" "started").
Defined.

Example split_error_goes_to_errLog :
  Log (NewSplitLogger (Backend "stdout" []) (Backend "stderr" []))
      LogLevelError [Str "boom"]
  = [mkCall "stderr" [] (CallLog LogLevelError [Str "boom"])].
Proof. reflexivity. Qed.

Example split_message_goes_through_Log :
  LogMessage (SplitLogger (Backend "stdout" []) (Backend "stderr" []))
      LogLevelWarn "careful"
  = [mkCall "stdout" [] (CallLog LogLevelWarn [Str "careful"])].
Proof. reflexivity. Qed.

Example split_field_on_both :
  WithField (SplitLogger (Backend "stdout" []) (Backend "stderr" [])) "pid" (Int 7)
  = BaseLogger (SplitLogger (Backend "stdout" [("pid", Int 7)])
                            (Backend "stderr" [("pid", Int 7)])).
Proof. reflexivity. Qed.

Example split_field_dropped_by_fieldless :
  WithField (SplitLogger (Fieldless "plain") (Backend "stderr" [])) "pid" (Int 7)
  = BaseLogger (SplitLogger (BaseLogger (Fieldless "plain"))
                            (Backend "stderr" [("pid", Int 7)])).
Proof. reflexivity. Qed.

End SplitFacts.

(** ** The caller hook *)

Module CallerFacts.
Import runtime logrus caller_hook.

(** The loop answers nothing when a single frame is captured. *)
Lemma nextCaller_last (g : Frame) : nextCaller [g] = None.
Proof. reflexivity. Qed.

(** One turn of the loop on a frame that is not the last. *)
Lemma nextCaller_cons (g : Frame) (l : list Frame) :
  l <> [] ->
  nextCaller (g :: l) = if wrapper_frame g then nextCaller l else Some g.
Proof.
  intros Hl. destruct l as [| h l]; [contradiction |].
  unfold wrapper_frame. cbn [nextCaller Next].
  destruct (HasPrefix (Function g) logrusPackageDot);
    [reflexivity |].
  destruct (HasPrefix (Function g) dlogPackageDot); reflexivity.
Qed.

(** The loop is a search among the captured frames without the last. *)
Lemma nextCaller_find (frames : list Frame) :
  nextCaller frames
  = find (fun f => negb (wrapper_frame f)) (removelast frames).
Proof.
  induction frames as [| g rest IH]; [reflexivity |].
  destruct rest as [| h rest]; [reflexivity |].
  rewrite nextCaller_cons by discriminate.
  change (removelast (g :: h :: rest)) with (g :: removelast (h :: rest)).
  cbn [find]. destruct (wrapper_frame g); [exact IH | reflexivity].
Qed.

(** The loop stops at the first frame outside the two wrapper packages
    that is not the last captured frame. *)
Lemma nextCaller_Some (frames : list Frame) (f : Frame) :
  nextCaller frames = Some f <->
  exists pre post,
    frames = (pre ++ f :: post)%list /\ post <> [] /\
    forallb wrapper_frame pre = true /\ wrapper_frame f = false.
Proof.
  split.
  - induction frames as [| g rest IH]; [discriminate |].
    destruct rest as [| h rest]; [discriminate |].
    rewrite nextCaller_cons by discriminate.
    destruct (wrapper_frame g) eqn:Eg.
    + intros H. destruct (IH H) as [pre [post [E [Hp [Hw Hf]]]]].
      exists (g :: pre), post. rewrite E. simpl. rewrite Eg, Hw. auto.
    + intros [= <-]. exists [], (h :: rest). simpl.
      repeat split; try assumption; discriminate.
  - intros [pre [post [-> [Hp [Hw Hf]]]]].
    induction pre as [| g pre IH].
    + cbn [app]. rewrite nextCaller_cons by exact Hp. rewrite Hf. reflexivity.
    + simpl in Hw. apply andb_true_iff in Hw. destruct Hw as [Hg Hw].
      change ((g :: pre) ++ f :: post)%list with (g :: (pre ++ f :: post))%list.
      rewrite nextCaller_cons by (destruct pre; discriminate).
      rewrite Hg. apply IH. exact Hw.
Qed.


(** [getCaller] looks at the first 25 frames of its caller's stack. *)
Lemma getCaller_frames (stack : Stack) :
  getCaller stack = nextCaller (firstn maximumCallerDepth stack).
Proof. reflexivity. Qed.




Example getCaller_skips_wrappers :
  getCaller [frame_Fire; mkFrame (logrusPackageDot ++ "(*Entry).log") "entry.go" 255;
             frame_Infof; frame_main; frame_runtime_main; frame_goexit]
  = Some frame_main.
Proof. reflexivity. Qed.

Example getCaller_all_wrappers :
  getCaller [frame_Fire; frame_Infof; frame_goexit] = None.
Proof. reflexivity. Qed.

Example getCaller_never_answers_the_last_frame :
  getCaller [frame_Fire; frame_Infof; frame_main] = None.
Proof. reflexivity. Qed.

Example Fire_keeps_foreign_caller :
  Fire [frame_Fire; frame_main; frame_goexit]
       (mkEntry None (Some frame_main) "started")
  = (mkEntry None (Some frame_main) "started", None).
Proof. reflexivity. Qed.

End CallerFacts.

(** ** The interrupt capability *)

Module InterruptFacts.
Import dexec.

(** Masking with a single bit leaves that bit or nothing. *)
Lemma land_pow2 (x n : Z) :
  0 <= n -> Z.land x (2 ^ n) = if Z.testbit x n then 2 ^ n else 0.
Proof.
  intros Hn. apply Z.bits_inj'. intros m Hm.
  rewrite Z.land_spec, Z.pow2_bits_eqb by exact Hn.
  destruct (Z.eqb_spec n m) as [-> | Hne].
  - destruct (Z.testbit x m); simpl.
    + rewrite Z.pow2_bits_eqb by exact Hm. symmetry. apply Z.eqb_refl.
    + symmetry. apply Z.bits_0.
  - rewrite andb_false_r.
    destruct (Z.testbit x n).
    + rewrite Z.pow2_bits_eqb by exact Hn. symmetry. apply Z.eqb_neq. exact Hne.
    + symmetry. apply Z.bits_0.
Qed.

(** The flag test of [canInterrupt] reads bit 9 of the creation flags. *)
Lemma flag_test (flags : Z) :
  negb (Z.land flags windows.CREATE_NEW_PROCESS_GROUP =? 0) = Z.testbit flags 9.
Proof.
  change windows.CREATE_NEW_PROCESS_GROUP with (2 ^ 9).
  rewrite land_pow2 by lia.
  destruct (Z.testbit flags 9); reflexivity.
Qed.

(** C1: on Windows [canInterrupt] is true exactly when the Cmd, the
    exec.Cmd it embeds and its SysProcAttr are all non-nil and the
    CREATE_NEW_PROCESS_GROUP flag (bit 9, 0x200) is set in the creation
    flags; it is false when the attribute is omitted: for a nil Cmd, a nil
    exec.Cmd, a nil SysProcAttr, or creation flags without the flag. *)
Theorem canInterrupt_iff_new_process_group :
  forall c : option Cmd,
    (canInterrupt c = true <->
       exists d ec attr,
         c = Some d /\ Cmd_ d = Some ec /\ exec.SysProcAttr ec = Some attr /\
         Z.land (windows.CreationFlags attr) windows.CREATE_NEW_PROCESS_GROUP <> 0 /\
         Z.testbit (windows.CreationFlags attr) 9 = true) /\
    (c = None -> canInterrupt c = false) /\
    (forall d, c = Some d -> Cmd_ d = None -> canInterrupt c = false) /\
    (forall d ec, c = Some d -> Cmd_ d = Some ec ->
       exec.SysProcAttr ec = None -> canInterrupt c = false) /\
    (forall d ec attr, c = Some d -> Cmd_ d = Some ec ->
       exec.SysProcAttr ec = Some attr ->
       Z.land (windows.CreationFlags attr) windows.CREATE_NEW_PROCESS_GROUP = 0 ->
       canInterrupt c = false).
Proof.
  intros c. split; [| split; [| split; [| split]]].
  - unfold canInterrupt. split.
    + destruct c as [d |]; [| discriminate].
      destruct (Cmd_ d) as [ec |] eqn:Ed; [| discriminate].
      destruct (exec.SysProcAttr ec) as [attr |] eqn:Ea; [| discriminate].
      intros H. exists d, ec, attr.
      repeat (split; [auto; fail |]). split.
      * intros H0. rewrite H0 in H. discriminate H.
      * rewrite <- flag_test. exact H.
    + intros [d [ec [attr [-> [-> [-> [_ Hbit]]]]]]].
      rewrite flag_test. exact Hbit.
  - intros ->. reflexivity.
  - intros d -> Hd. simpl. rewrite Hd. reflexivity.
  - intros d ec -> Hd Ha. simpl. rewrite Hd, Ha. reflexivity.
  - intros d ec attr -> Hd Ha H0. simpl. rewrite Hd, Ha, H0. reflexivity.
Qed.

Lemma canInterrupt_iff_new_process_group_witness :
  canInterrupt (Some dexec.isolated_cmd) = true /\
  canInterrupt (Some dexec.plain_cmd) = false.
Proof.
  split.
  - apply (canInterrupt_iff_new_process_group (Some dexec.isolated_cmd)).
    eexists _, _, _.
    split; [reflexivity |]. split; [reflexivity |]. split; [reflexivity |].
    split; [vm_compute; discriminate | reflexivity].
  - destruct (canInterrupt_iff_new_process_group (Some dexec.plain_cmd))
      as [_ [_ [_ [H _]]]].
    eapply H; reflexivity.
Defined.

Example canInterrupt_nil : canInterrupt None = false.
Proof. reflexivity. Qed.

Example canInterrupt_other_flags :
  canInterrupt (Some (mkCmd (Some (exec.mkCmd "a.exe" []
       (Some (windows.mkSysProcAttr true 0x08000010)) None)) false)) = false.
Proof. reflexivity. Qed.

End InterruptFacts.

(** ** The signal bridge *)

Module SigintFacts.
Import sigint.

Lemma uint32_small (x : Z) : is_uint32 x -> uint32 x = x.
Proof. intros H. apply Z.mod_small. exact H. Qed.

(** C2: for every process handle, [SendInterrupt] makes one platform
    call, [GenerateConsoleCtrlEvent] with the break event and the
    process's PID as the process group (the PID itself when it is a
    uint32), and does nothing else to the system.  It returns an
    [os.SyscallError] naming GenerateConsoleCtrlEvent and wrapping the
    platform's error exactly when that call fails, and nil exactly when
    it succeeds. *)
Theorem SendInterrupt_break_event :
  forall (World : Type)
         (GenerateConsoleCtrlEvent : Z -> Z -> World -> option windows.Errno * World)
         (p : os.Process) (w : World),
    snd (SendInterrupt World GenerateConsoleCtrlEvent (Some p) w)
    = snd (GenerateConsoleCtrlEvent windows.CTRL_BREAK_EVENT (uint32 (os.Pid p)) w) /\
    (is_uint32 (os.Pid p) -> uint32 (os.Pid p) = os.Pid p) /\
    (forall e,
       fst (GenerateConsoleCtrlEvent windows.CTRL_BREAK_EVENT (uint32 (os.Pid p)) w)
       = Some e <->
       fst (SendInterrupt World GenerateConsoleCtrlEvent (Some p) w)
       = Ok (Some (os.mkSyscallError "GenerateConsoleCtrlEvent" e))) /\
    (fst (GenerateConsoleCtrlEvent windows.CTRL_BREAK_EVENT (uint32 (os.Pid p)) w)
     = None <->
     fst (SendInterrupt World GenerateConsoleCtrlEvent (Some p) w) = Ok None) /\
    ~ panics (fst (SendInterrupt World GenerateConsoleCtrlEvent (Some p) w)).
Proof.
  intros World G p w. unfold SendInterrupt.
  destruct (G windows.CTRL_BREAK_EVENT (uint32 (os.Pid p)) w) as [[e |] w'];
    simpl.
  - split; [reflexivity |]. split; [apply uint32_small |]. split; [| split].
    + intros e'. split; [intros [= ->]; reflexivity | intros [= ->]; reflexivity].
    + split; discriminate.
    + intros [q Hq]. discriminate Hq.
  - split; [reflexivity |]. split; [apply uint32_small |]. split; [| split].
    + intros e'. split; discriminate.
    + split; reflexivity.
    + intros [q Hq]. discriminate Hq.
Qed.

Lemma SendInterrupt_break_event_witness :
  SendInterrupt Console console_GenerateConsoleCtrlEvent
    (Some (os.mkProcess 4242)) (mkConsole [4242] [])
  = (Ok None, mkConsole [4242] [(windows.CTRL_BREAK_EVENT, 4242)]) /\
  fst (SendInterrupt Console console_GenerateConsoleCtrlEvent
         (Some (os.mkProcess 4242)) (mkConsole [17] []))
  = Ok (Some (os.mkSyscallError "GenerateConsoleCtrlEvent" ERROR_INVALID_PARAMETER)).
Proof.
  split.
  - apply injective_projections.
    + apply (SendInterrupt_break_event Console console_GenerateConsoleCtrlEvent
               (os.mkProcess 4242) (mkConsole [4242] [])). reflexivity.
    + destruct (SendInterrupt_break_event Console console_GenerateConsoleCtrlEvent
               (os.mkProcess 4242) (mkConsole [4242] [])) as [H _].
      rewrite H. reflexivity.
  - apply (SendInterrupt_break_event Console console_GenerateConsoleCtrlEvent
             (os.mkProcess 4242) (mkConsole [17] [])). reflexivity.
Defined.

End SigintFacts.

(** ** The process handle and its escalation controller *)

Module EscalationFacts.
Import escalation.

Local Open Scope nat_scope.

Lemma run_app (cmd : dexec.Cmd) (evs1 evs2 : list Event) :
  forall s,
    run cmd s (evs1 ++ evs2)%list
    = match run cmd s evs1 with
      | Some s1 => run cmd s1 evs2
      | None => None
      end.
Proof.
  induction evs1 as [| e evs1 IH]; intros s; simpl; [reflexivity |].
  destruct (step cmd s e); [apply IH | reflexivity].
Qed.

Lemma run_snoc (cmd : dexec.Cmd) (evs : list Event) (e : Event) (s s' : State) :
  run cmd s (evs ++ [e])%list = Some s' ->
  exists s1, run cmd s evs = Some s1 /\ step cmd s1 e = Some s'.
Proof.
  rewrite run_app. destruct (run cmd s evs) as [s1 |]; [| discriminate].
  simpl. destruct (step cmd s1 e) as [s2 |] eqn:E; [| discriminate].
  intros [= <-]. exists s1. auto.
Qed.

(** A property of the events so far and the state that holds at the
    start and across every step holds after every run. *)
Lemma run_invariant (cmd : dexec.Cmd) (P : list Event -> State -> Prop) :
  P [] init ->
  (forall evs s e s', P evs s -> step cmd s e = Some s' -> P (evs ++ [e])%list s') ->
  forall evs s, run cmd init evs = Some s -> P evs s.
Proof.
  intros H0 Hstep evs.
  induction evs as [| e evs IH] using rev_ind; intros s Hrun.
  - injection Hrun as <-. exact H0.
  - destruct (run_snoc _ _ _ _ _ Hrun) as [s1 [H1 H2]].
    eapply Hstep; [apply IH; exact H1 | exact H2].
Qed.

(** Case analysis of one step: every way [step] can answer [Some]. *)
Ltac step_cases H :=
  unfold step in H;
  repeat match type of H with
         | context [match ?x with _ => _ end] =>
             let E := fresh "E" in destruct x eqn:E; try discriminate H
         end;
  injection H as <-;
  try match goal with
      | E : record_signal ?o _ = _ |- _ =>
          unfold record_signal in E;
          destruct o as [[| ?] |]; injection E as <- <-
      end.

(** Use the premises that the case at hand makes true. *)
Ltac use_cases :=
  simpl in *;
  repeat match goal with
         | H : ?a = ?a -> _ |- _ => specialize (H eq_refl)
         | H : (?a = ?b) -> _, H' : ?a = ?b |- _ => specialize (H H')
         | H : _ /\ _ |- _ => destruct H
         end.

Lemma counts_inv_init : counts_inv init.
Proof. constructor; simpl; auto; discriminate. Qed.

Lemma counts_inv_step (cmd : dexec.Cmd) (s s' : State) (e : Event) :
  counts_inv s -> step cmd s e = Some s' -> counts_inv s'.
Proof.
  intros [I1 I2 I3 I4 I5 I5' I6 I7 I8] H.
  step_cases H; unfold count in *; use_cases;
    constructor; unfold count; simpl; intros; use_cases;
    try discriminate; try lia; try congruence; auto.
Qed.

Lemma history_inv_init : history_inv [] init.
Proof.
  constructor; simpl; try discriminate; auto.
Qed.

(** Membership in the events so far, after one more event. *)
Lemma in_snoc {A : Type} (x y : A) (l : list A) :
  In x (l ++ [y])%list <-> In x l \/ y = x.
Proof.
  rewrite in_app_iff. simpl. tauto.
Qed.

(** Bring the premises of the case at hand into play and split the
    goal into its atoms. *)
Ltac history_atoms :=
  use_cases;
  repeat match goal with
         | |- ~ _ => intro
         | |- forall _, _ => intro
         | |- _ /\ _ => split
         | H : exists _, _ |- _ => destruct H
         | H : _ /\ _ |- _ => destruct H
         | H : Some _ = Some _ |- _ => injection H as H; try subst
         | H : _ && _ = true |- _ => apply andb_true_iff in H
         | H : In _ (_ ++ [_])%list |- _ =>
             apply in_snoc in H; destruct H as [H | H];
             [| try discriminate H; try (injection H as H; try subst)]
         | H : (?a = ?b) -> _, H' : ?a = ?b |- _ => specialize (H H')
         | H : forall st, ~ In (ProcessExits st) ?l, H' : In (ProcessExits _) ?l
           |- _ => destruct (H _ H')
         | H : forall x, ?f = Some x -> _, H' : ?f = Some _ |- _ =>
             specialize (H _ H')
         | H : forall x, Some ?a = Some x -> _ |- _ => specialize (H _ eq_refl)
         end.

Ltac history_close :=
  try discriminate; try congruence;
  try (exfalso; eauto; fail);
  try (apply in_snoc; eauto; fail);
  try (eexists; apply in_snoc; eauto; fail);
  try (rewrite existsb_app; apply orb_true_iff; simpl; eauto; fail);
  eauto.

Lemma history_inv_step (cmd : dexec.Cmd) (evs : list Event) (s s' : State)
  (e : Event) :
  history_inv evs s -> step cmd s e = Some s' -> history_inv (evs ++ [e]) s'.
Proof.
  intros [I1 I2 I3 I4 I5 I6 I7 I8] H.
  step_cases H; constructor; simpl; history_atoms; history_close.
Qed.






Lemma reachable_counts (cmd : dexec.Cmd) (evs : list Event) (s : State) :
  run cmd init evs = Some s -> counts_inv s.
Proof.
  apply (run_invariant cmd (fun _ s => counts_inv s)).
  - exact counts_inv_init.
  - intros evs0 s0 e s' I H. eapply counts_inv_step; eassumption.
Qed.

Lemma reachable_history (cmd : dexec.Cmd) (evs : list Event) (s : State) :
  run cmd init evs = Some s -> history_inv evs s.
Proof.
  apply (run_invariant cmd history_inv).
  - exact history_inv_init.
  - intros evs0 s0 e s' I H. eapply history_inv_step; eassumption.
Qed.


(** What [Wait] needs in order to return. *)
Lemma WaitReturns_guard (cmd : dexec.Cmd) (s s' : State) :
  step cmd s WaitReturns = Some s' ->
  os_status s <> None /\ exit_observed (lifecycle s) = true /\
  stdout_done s = true /\ stderr_done s = true /\
  wait_result s = None /\ wait_result s' <> None.
Proof.
  intros H. step_cases H. simpl.
  apply andb_true_iff in E1. destruct E1 as [E1 E3].
  apply andb_true_iff in E1. destruct E1 as [E1 E2].
  repeat split; try assumption; discriminate.
Qed.


(** A terminal state is never left. *)
Lemma terminal_step (cmd : dexec.Cmd) (s s' : State) (e : Event) :
  terminal (lifecycle s) = true -> step cmd s e = Some s' ->
  lifecycle s' = lifecycle s.
Proof.
  intros T H. step_cases H; simpl in *; congruence.
Qed.

Lemma terminal_run (cmd : dexec.Cmd) (evs : list Event) :
  forall s s', terminal (lifecycle s) = true -> run cmd s evs = Some s' ->
               lifecycle s' = lifecycle s.
Proof.
  induction evs as [| e evs IH]; simpl; intros s s' T H.
  - injection H as <-. reflexivity.
  - destruct (step cmd s e) as [s1 |] eqn:E; [| discriminate].
    pose proof (terminal_step cmd s s1 e T E) as L.
    rewrite <- L. apply IH; [rewrite L; exact T | exact H].
Qed.

(** A running process can always go on to a terminal state. *)
Lemma running_can_end (cmd : dexec.Cmd) (s : State) :
  lifecycle s = Running ->
  exists evs s', run cmd s evs = Some s' /\ terminal (lifecycle s') = true.
Proof.
  intros L. destruct (os_status s) as [st |] eqn:O.
  - exists [ObserveExit]. simpl. rewrite L, O.
    destruct (ctl s); eexists; split; reflexivity.
  - exists [ProcessExits (mkExitStatus 0%Z None); ObserveExit].
    simpl. rewrite L, O. simpl.
    destruct (ctl s); eexists; split; reflexivity.
Qed.

(** C4: [Wait] returns only after the process has exited and the relay
    task of each stream has finished.  In every state in which [Wait] can
    return the exit has been observed and both relays are done; in every
    run the return of [Wait] comes after the exit of the process and
    after the end of both relays; and whenever a relay is still running,
    [Wait] cannot return. *)
Theorem Wait_joins_exit_and_relays :
  forall (cmd : dexec.Cmd) (evs1 evs2 : list Event) (s : State),
    run cmd init (evs1 ++ WaitReturns :: evs2)%list = Some s ->
    (exists st, In (ProcessExits st) evs1) /\
    (forall stream, exists err, In (RelayFinished stream err) evs1) /\
    (exists s1, run cmd init evs1 = Some s1 /\
                os_status s1 <> None /\ exit_observed (lifecycle s1) = true /\
                forall stream, relay_done s1 stream = true) /\
    (forall s0 stream, relay_done s0 stream = false ->
                       step cmd s0 WaitReturns = None) /\
    (forall s0, os_status s0 = None -> step cmd s0 WaitReturns = None).
Proof.
  intros cmd evs1 evs2 s Hrun.
  rewrite run_app in Hrun.
  destruct (run cmd init evs1) as [s1 |] eqn:R1; [| discriminate].
  cbn [run] in Hrun.
  destruct (step cmd s1 WaitReturns) as [s2 |] eqn:W; [| discriminate].
  destruct (WaitReturns_guard cmd s1 s2 W) as [Hos [Hobs [Hout [Herr _]]]].
  destruct (reachable_history cmd evs1 s1 R1) as [_ Hex Hso Hse _ _ _ _].
  split; [| split; [| split; [| split]]].
  - destruct (os_status s1) as [st |] eqn:O; [| contradiction].
    exists st. apply (Hex st eq_refl).
  - intros [|]; [apply Hso | apply Hse]; assumption.
  - exists s1. repeat split; try assumption.
    intros [|]; assumption.
  - intros s0 stream Hrel.
    destruct (step cmd s0 WaitReturns) as [s3 |] eqn:W0; [| reflexivity].
    destruct (WaitReturns_guard cmd s0 s3 W0) as [_ [_ [Ho [He _]]]].
    destruct stream; simpl in Hrel; congruence.
  - intros s0 Hnone. unfold step. rewrite Hnone. reflexivity.
Qed.

Lemma Wait_joins_exit_and_relays_witness :
  (exists st, In (ProcessExits st)
     [Start None; RelayFinished Stdout None; ProcessExits (mkExitStatus 3%Z None);
      ObserveExit; RelayFinished Stderr None]) /\
  (forall stream, exists err, In (RelayFinished stream err)
     [Start None; RelayFinished Stdout None; ProcessExits (mkExitStatus 3%Z None);
      ObserveExit; RelayFinished Stderr None]).
Proof.
  destruct (Wait_joins_exit_and_relays dexec.plain_cmd
              [Start None; RelayFinished Stdout None;
               ProcessExits (mkExitStatus 3%Z None);
               ObserveExit; RelayFinished Stderr None] []
              (mkState Exited Reaped false (Some (mkExitStatus 3%Z None))
                 true true false []
                 [DoRelease; EnterTerminal Exited; DoLog LogProcessStarted]
                 (Some (mkWaitResult (mkExitStatus 3%Z None) false [])))
              eq_refl) as [H1 [H2 _]].
  split; assumption.
Defined.

(** C5: a process handle enters a terminal state at most once and never
    leaves it: in every run, with cancellation requested any number of
    times and exit detection and kill in any order, the soft interrupt
    is sent at most once, the hard kill is issued at most once, the OS
    resources are released at most once and at most one terminal state
    is entered; a handle in a terminal state has entered exactly one and
    keeps it whatever follows; a running process can always go on to a
    terminal state; and a cancellation request is accepted in every
    state. *)
Theorem terminal_state_entered_once :
  forall (cmd : dexec.Cmd) (evs : list Event) (s : State),
    run cmd init evs = Some s ->
    count is_interrupt (actions s) <= 1 /\
    count is_kill (actions s) <= 1 /\
    count is_release (actions s) <= 1 /\
    count is_terminal (actions s) <= 1 /\
    (terminal (lifecycle s) = true ->
       count is_terminal (actions s) = 1 /\
       forall evs' s', run cmd s evs' = Some s' -> lifecycle s' = lifecycle s) /\
    (lifecycle s = Running ->
       exists evs' s', run cmd s evs' = Some s' /\ terminal (lifecycle s') = true) /\
    (exists s', step cmd s CancelRequest = Some s').
Proof.
  intros cmd evs s Hrun.
  destruct (reachable_counts cmd evs s Hrun) as [I1 I2 I3 _ _ _ _ I7 I8].
  split; [exact I1 |]. split; [exact I2 |]. split; [exact I3 |].
  split; [| split; [| split]].
  - destruct (terminal (lifecycle s)); [rewrite I8 | rewrite I7]; auto.
  - intros T. split; [apply I8; exact T |].
    intros evs' s' H. eapply terminal_run; eassumption.
  - apply running_can_end.
  - eexists. reflexivity.
Qed.

Lemma terminal_state_entered_once_witness :
  run dexec.isolated_cmd init escalated_run
  = Some (final dexec.isolated_cmd escalated_run) /\
  lifecycle (final dexec.isolated_cmd escalated_run) = Killed /\
  count is_interrupt (actions (final dexec.isolated_cmd escalated_run)) <= 1 /\
  count is_kill (actions (final dexec.isolated_cmd escalated_run)) <= 1 /\
  count is_release (actions (final dexec.isolated_cmd escalated_run)) <= 1 /\
  count is_terminal (actions (final dexec.isolated_cmd escalated_run)) <= 1.
Proof.
  assert (R : run dexec.isolated_cmd init escalated_run
              = Some (final dexec.isolated_cmd escalated_run))
    by (vm_compute; reflexivity).
  destruct (terminal_state_entered_once dexec.isolated_cmd escalated_run _ R)
    as [H1 [H2 [H3 [H4 _]]]].
  split; [exact R |]. split; [vm_compute; reflexivity |].
  repeat split; assumption.
Defined.









Example raced_run_has_no_error :
  wait_result (final dexec.isolated_cmd raced_run)
  = Some (mkWaitResult (mkExitStatus 0%Z None) false []).
Proof. vm_compute. reflexivity. Qed.

Example escalated_run_is_killed :
  wait_result (final dexec.isolated_cmd escalated_run)
  = Some (mkWaitResult (mkExitStatus (-1)%Z (Some 9%Z)) true []).
Proof. vm_compute. reflexivity. Qed.

Example no_capability_kills_at_once :
  option_map actions
    (run dexec.plain_cmd init [Start None; CancelRequest; ObserveCancel None])
  = Some [DoLog LogProcessKilled; DoHardKill; DoLog LogProcessStarted].
Proof. vm_compute. reflexivity. Qed.

Example Wait_before_relay_end_is_impossible :
  run dexec.plain_cmd init
    [Start None; ProcessExits (mkExitStatus 0%Z None); ObserveExit;
     RelayFinished Stdout None; WaitReturns]
  = None.
Proof. vm_compute. reflexivity. Qed.

End EscalationFacts.

(** ** More on the level conversion *)

Module LevelExtra.
Import dlog logrus_wrapper.

(** A successful conversion comes from one of the five levels and adds
    the offset of [logrus.ErrorLevel]. *)
Lemma logrusLevel_Ok_inv (level : LogLevel) (lv : logrus.Level) :
  logrusLevel level = Ok lv ->
  0 <= level <= LogLevelTrace /\ lv = level + logrus.ErrorLevel.
Proof.
  unfold logrusLevel, index.
  destruct (level >? LogLevelTrace) eqn:Hgt; [discriminate |].
  destruct (level <? 0) eqn:Hlt; [discriminate |].
  rewrite Z.gtb_ltb, Z.ltb_ge in Hgt. rewrite Z.ltb_ge in Hlt.
  intros H. assert (Hr : 0 <= level <= LogLevelTrace) by lia.
  split; [exact Hr |].
  pose proof (LevelFacts.logrusLevel_defined level Hr) as Hd.
  unfold logrusLevel, index in Hd.
  destruct (level >? LogLevelTrace); [discriminate |].
  destruct (level <? 0); [discriminate |].
  rewrite Hd in H. injection H as <-. reflexivity.
Qed.

(** What the range loop of [MaxLevel] finds in the table. *)
Lemma rangeFind_table_inv (lrv : logrus.Level) :
  rangeFind 0 dlogLevel2logrusLevel lrv
  = if (logrus.ErrorLevel <=? lrv) && (lrv <=? logrus.TraceLevel)
    then Some (lrv - logrus.ErrorLevel) else None.
Proof.
  unfold dlogLevel2logrusLevel, rangeFind, logrus.ErrorLevel, logrus.WarnLevel,
    logrus.InfoLevel, logrus.DebugLevel, logrus.TraceLevel.
  repeat match goal with
         | |- context [?a =? lrv] => destruct (Z.eqb_spec a lrv); [subst; reflexivity |]
         end.
  destruct (2 <=? lrv) eqn:E1; [| reflexivity].
  destruct (lrv <=? 6) eqn:E2; [| reflexivity].
  apply Z.leb_le in E1, E2. exfalso. lia.
Qed.

Lemma MaxLevel_with_logger (w : logrusWrapper) (lg : logrus.Logger) :
  (impl w = LogrusLogger (Some lg) \/
   exists e, impl w = LogrusEntry (Some e) /\ logrus.Entry_Logger e = Some lg) ->
  MaxLevel w
  = match rangeFind 0 dlogLevel2logrusLevel (logrus.GetLevel lg) with
    | Some i => Ok i
    | None => Panic (InvalidLogrusLevel (logrus.GetLevel lg))
    end.
Proof.
  unfold MaxLevel. intros [H | [e [H He]]]; rewrite H; cbv beta iota delta [bindR].
  - reflexivity.
  - rewrite He. reflexivity.
Qed.

Lemma MaxLevel_Ok_logger (w : logrusWrapper) (l : LogLevel) :
  MaxLevel w = Ok l ->
  exists lg,
    impl w = LogrusLogger (Some lg) \/
    exists e, impl w = LogrusEntry (Some e) /\ logrus.Entry_Logger e = Some lg.
Proof.
  unfold MaxLevel.
  destruct (impl w) as [[lg |] | [e |] |]; cbv beta iota delta [bindR];
    try discriminate.
  - intros _. exists lg. left. reflexivity.
  - destruct (logrus.Entry_Logger e) as [lg |] eqn:He; [| discriminate].
    intros _. exists lg. right. exists e. auto.
Qed.

(** X1: the conversion keeps the order of the levels and is one to one:
    of two LogLevels that convert, the lower one converts to the lower
    logrus level, and equal results come from equal levels. *)
Theorem logrusLevel_order_preserving :
  forall (l1 l2 : LogLevel) (v1 v2 : logrus.Level),
    logrusLevel l1 = Ok v1 ->
    logrusLevel l2 = Ok v2 ->
    (l1 < l2 <-> v1 < v2) /\ (l1 = l2 <-> v1 = v2).
Proof.
  intros l1 l2 v1 v2 H1 H2.
  destruct (logrusLevel_Ok_inv l1 v1 H1) as [_ ->].
  destruct (logrusLevel_Ok_inv l2 v2 H2) as [_ ->].
  split; split; lia.
Qed.

Lemma logrusLevel_order_preserving_witness :
  (LogLevelWarn < LogLevelDebug <-> logrus.WarnLevel < logrus.DebugLevel) /\
  (LogLevelWarn = LogLevelDebug <-> logrus.WarnLevel = logrus.DebugLevel).
Proof.
  apply (logrusLevel_order_preserving LogLevelWarn LogLevelDebug); reflexivity.
Defined.

(** X2: whatever [MaxLevel] returns is one of the five defined levels
    and converts back to the level of the logrus logger the wrapper
    reads. *)
Theorem MaxLevel_converts_back :
  forall (w : logrusWrapper) (l : LogLevel),
    MaxLevel w = Ok l ->
    In l defined_levels /\
    exists lg,
      (impl w = LogrusLogger (Some lg) \/
       exists e, impl w = LogrusEntry (Some e) /\ logrus.Entry_Logger e = Some lg) /\
      logrusLevel l = Ok (logrus.GetLevel lg).
Proof.
  intros w l H.
  destruct (MaxLevel_Ok_logger w l H) as [lg Hlg].
  rewrite (MaxLevel_with_logger w lg Hlg), rangeFind_table_inv in H.
  destruct ((logrus.ErrorLevel <=? logrus.GetLevel lg)
            && (logrus.GetLevel lg <=? logrus.TraceLevel)) eqn:E; [| discriminate].
  injection H as <-.
  apply andb_true_iff in E. destruct E as [E1 E2].
  apply Z.leb_le in E1, E2.
  assert (Hr : 0 <= logrus.GetLevel lg - logrus.ErrorLevel <= LogLevelTrace)
    by (unfold logrus.ErrorLevel, logrus.TraceLevel, LogLevelTrace in *; lia).
  split.
  - destruct (LevelFacts.level_cases _ Hr) as [E | [E | [E | [E | E]]]];
      rewrite E; simpl; tauto.
  - exists lg. split; [exact Hlg |].
    rewrite (LevelFacts.logrusLevel_defined _ Hr), Z.sub_add. reflexivity.
Qed.

Lemma MaxLevel_converts_back_witness :
  In LogLevelDebug defined_levels /\
  exists lg,
    (impl (mkWrapper (LogrusLogger (Some (logrus.mkLogger logrus.DebugLevel))))
     = LogrusLogger (Some lg) \/
     exists e,
       impl (mkWrapper (LogrusLogger (Some (logrus.mkLogger logrus.DebugLevel))))
       = LogrusEntry (Some e) /\ logrus.Entry_Logger e = Some lg) /\
    logrusLevel LogLevelDebug = Ok (logrus.GetLevel lg).
Proof.
  apply (MaxLevel_converts_back
           (mkWrapper (LogrusLogger (Some (logrus.mkLogger logrus.DebugLevel))))
           LogLevelDebug).
  reflexivity.
Defined.

(** X3: [MaxLevel] panics exactly when the wrapper holds no logrus
    logger (a nil pointer, an entry without logger, another
    implementation) or one whose level is outside ErrorLevel..TraceLevel;
    a logger set to PanicLevel or FatalLevel makes it panic with
    "invalid logrus LogLevel". *)
Theorem MaxLevel_panics_iff :
  forall w : logrusWrapper,
    (panics (MaxLevel w) <->
       ~ (exists lg,
            (impl w = LogrusLogger (Some lg) \/
             exists e, impl w = LogrusEntry (Some e) /\
                       logrus.Entry_Logger e = Some lg) /\
            logrus.ErrorLevel <= logrus.GetLevel lg <= logrus.TraceLevel)) /\
    (forall lg,
       (impl w = LogrusLogger (Some lg) \/
        exists e, impl w = LogrusEntry (Some e) /\ logrus.Entry_Logger e = Some lg) ->
       logrus.GetLevel lg = logrus.PanicLevel \/
       logrus.GetLevel lg = logrus.FatalLevel ->
       MaxLevel w = Panic (InvalidLogrusLevel (logrus.GetLevel lg))).
Proof.
  intros w. split.
  - split.
    + intros [p Hp] [lg [Hlg Hr]].
      rewrite (MaxLevel_with_logger w lg Hlg), rangeFind_table_inv in Hp.
      destruct Hr as [H1 H2]. apply Z.leb_le in H1, H2.
      rewrite H1, H2 in Hp. discriminate Hp.
    + intros Hn. destruct (MaxLevel w) as [l | p] eqn:E; [| exists p; reflexivity].
      exfalso. apply Hn.
      destruct (MaxLevel_Ok_logger w l E) as [lg Hlg]. exists lg.
      split; [exact Hlg |].
      rewrite (MaxLevel_with_logger w lg Hlg), rangeFind_table_inv in E.
      destruct ((logrus.ErrorLevel <=? logrus.GetLevel lg)
                && (logrus.GetLevel lg <=? logrus.TraceLevel)) eqn:B;
        [| discriminate].
      apply andb_true_iff in B. destruct B as [B1 B2].
      apply Z.leb_le in B1, B2. lia.
  - intros lg Hlg Hlow.
    rewrite (MaxLevel_with_logger w lg Hlg), rangeFind_table_inv.
    destruct Hlow as [-> | ->]; reflexivity.
Qed.

Lemma MaxLevel_panics_iff_witness :
  MaxLevel (mkWrapper (LogrusEntry (Some
     (logrus.mkEntry (Some (logrus.mkLogger logrus.FatalLevel)) None ""))))
  = Panic (InvalidLogrusLevel logrus.FatalLevel).
Proof.
  destruct (MaxLevel_panics_iff (mkWrapper (LogrusEntry (Some
     (logrus.mkEntry (Some (logrus.mkLogger logrus.FatalLevel)) None "")))))
    as [_ H].
  apply (H (logrus.mkLogger logrus.FatalLevel)).
  - right. eexists. split; reflexivity.
  - right. reflexivity.
Defined.

End LevelExtra.

(** ** The logging methods of the logrus wrapper *)

Module WrapperFacts.
Import dlog logrus_wrapper logrus_methods.

Lemma converted_level_in_range (level : LogLevel) (lv : logrus.Level) :
  logrusLevel level = Ok lv ->
  logrus.ErrorLevel <= lv <= logrus.TraceLevel /\ In lv Levels.
Proof.
  intros H. destruct (LevelExtra.logrusLevel_Ok_inv level lv H) as [Hr ->].
  destruct (LevelFacts.level_cases level Hr) as [E | [E | [E | [E | E]]]];
    rewrite E; (split; [split; discriminate | simpl; tauto]).
Qed.

(** X4: every call that [Log], [Logf], [Logln] and [LogMessage] make
    goes to the value the wrapper holds, at the converted level, which
    is never PanicLevel or FatalLevel and is one of the levels the caller
    hook is registered for; [LogMessage] is [Log] with the message as the
    single argument; and for a level above LogLevelTrace all of them,
    and [StdLogger], panic before any call is made. *)
Theorem wrapper_calls_at_converted_level :
  forall (l : logrusWrapper) (level : LogLevel) (args : list split_logger.any)
         (format message : string),
    (forall r,
       In (Ok r) [Log l level args; Logf l level format args;
                  Logln l level args; LogMessage l level message] ->
       receiver r = impl l /\
       logrusLevel level = Ok (call_level (call r)) /\
       logrus.ErrorLevel <= call_level (call r) <= logrus.TraceLevel /\
       In (call_level (call r)) Levels) /\
    (forall lv, logrusLevel level = Ok lv ->
       Log l level args = Ok (mkReceived (impl l) (LrLog lv args)) /\
       Logf l level format args = Ok (mkReceived (impl l) (LrLogf lv format args)) /\
       Logln l level args = Ok (mkReceived (impl l) (LrLogln lv args)) /\
       LogMessage l level message
       = Ok (mkReceived (impl l) (LrLog lv [split_logger.Str message]))) /\
    (level > LogLevelTrace ->
       Log l level args = Panic (InvalidLogLevel level) /\
       Logf l level format args = Panic (InvalidLogLevel level) /\
       Logln l level args = Panic (InvalidLogLevel level) /\
       LogMessage l level message = Panic (InvalidLogLevel level) /\
       StdLogger l level = Panic (InvalidLogLevel level)).
Proof.
  intros l level args format message. split; [| split].
  - intros r Hin. unfold LogMessage, Log, Logf, Logln in Hin.
    destruct (logrusLevel level) as [lv |] eqn:E; simpl in Hin.
    + destruct (converted_level_in_range level lv E) as [Hr Hl].
      destruct Hin as [H | [H | [H | [H | []]]]]; injection H as <-; simpl; auto.
    + destruct Hin as [H | [H | [H | [H | []]]]]; discriminate H.
  - intros lv E. unfold LogMessage, Log, Logf, Logln. rewrite E. simpl. auto.
  - intros Hgt. unfold LogMessage, Log, Logf, Logln, StdLogger.
    rewrite (LevelFacts.logrusLevel_invalid level Hgt). simpl. auto.
Qed.

Lemma wrapper_calls_at_converted_level_witness :
  LogMessage (mkWrapper (LogrusLogger (Some (logrus.mkLogger logrus.InfoLevel))))
    LogLevelWarn "careful"
  = Ok (mkReceived (LogrusLogger (Some (logrus.mkLogger logrus.InfoLevel)))
          (LrLog logrus.WarnLevel [split_logger.Str "careful"])) /\
  StdLogger (mkWrapper OtherImpl) 9 = Panic (InvalidLogLevel 9).
Proof.
  destruct (wrapper_calls_at_converted_level
              (mkWrapper (LogrusLogger (Some (logrus.mkLogger logrus.InfoLevel))))
              LogLevelWarn [] "" "careful") as [_ [H _]].
  destruct (H logrus.WarnLevel eq_refl) as [_ [_ [_ H4]]].
  split; [exact H4 |].
  apply (wrapper_calls_at_converted_level (mkWrapper OtherImpl) 9 [] "" "").
  reflexivity.
Defined.

End WrapperFacts.

(** ** More on the caller hook *)

Module CallerExtra.
Import runtime logrus caller_hook.

Lemma getCaller_outside_wrappers (stack : Stack) (f : Frame) :
  getCaller stack = Some f -> wrapper_frame f = false.
Proof.
  rewrite CallerFacts.getCaller_frames. intros H.
  apply CallerFacts.nextCaller_Some in H.
  destruct H as [pre [post [_ [_ [_ H]]]]]. exact H.
Qed.

Lemma firstn_exact {A : Type} (pre rest : list A) :
  firstn (List.length pre) (pre ++ rest)%list = pre.
Proof.
  induction pre as [| x pre IH]; simpl; [reflexivity | rewrite IH; reflexivity].
Qed.

(** X5: after [Fire] the caller of an entry is never a function of the
    dlog package that the hook put there or kept, and running the hook
    again, on any stack, changes nothing. *)
Theorem Fire_settles :
  forall (stack stack' : Stack) (entry : Entry),
    (forall c, Caller (fst (Fire stack entry)) = Some c ->
               HasPrefix (Function c) dlogPackageDot = false) /\
    Fire stack' (fst (Fire stack entry)) = (fst (Fire stack entry), None).
Proof.
  intros stack stack' entry.
  assert (K : forall c, Caller (fst (Fire stack entry)) = Some c ->
                        HasPrefix (Function c) dlogPackageDot = false).
  { intros c. unfold Fire.
    destruct (Caller entry) as [c0 |] eqn:Ec; simpl.
    - destruct (HasPrefix (Function c0) dlogPackageDot) eqn:Ep; simpl.
      + intros H. apply getCaller_outside_wrappers in H.
        unfold wrapper_frame in H. apply orb_false_iff in H. apply H.
      + rewrite Ec. intros [= <-]. exact Ep.
    - rewrite Ec. discriminate. }
  split; [exact K |].
  unfold Fire at 1.
  destruct (Caller (fst (Fire stack entry))) as [c |] eqn:E; [| reflexivity].
  rewrite (K c eq_refl). reflexivity.
Qed.

Lemma Fire_settles_witness :
  Fire [frame_Fire; frame_Infof]
    (fst (Fire [frame_Fire; frame_Infof; frame_main; frame_goexit]
               entry_from_dlog))
  = (mkEntry None (Some frame_main) "started", None).
Proof.
  destruct (Fire_settles [frame_Fire; frame_Infof; frame_main; frame_goexit]
              [frame_Fire; frame_Infof] entry_from_dlog) as [_ H].
  rewrite H. reflexivity.
Defined.

(** X6: [getCaller] captures the 25 innermost frames above itself and
    examines all of them but the last.  With 25 frames or more above it,
    its answer is the first of the 24 innermost that belongs to neither
    logrus nor dlog, and nil when there is none, whatever the 25th frame
    and the frames beyond it are; with fewer frames, its answer is found
    the same way among all frames but the outermost. *)
Theorem getCaller_depth_limit :
  forall (pre : list Frame) (x : Frame) (rest : list Frame),
    (List.length pre = 24 \/ (List.length pre < 24 /\ rest = []))%nat ->
    getCaller (pre ++ x :: rest)%list
    = find (fun f => negb (wrapper_frame f)) pre.
Proof.
  intros pre x rest H.
  rewrite CallerFacts.getCaller_frames, CallerFacts.nextCaller_find.
  f_equal.
  assert (E : firstn maximumCallerDepth (pre ++ x :: rest)%list
              = (pre ++ [x])%list).
  { destruct H as [H | [H ->]].
    - change (pre ++ x :: rest)%list with (pre ++ [x] ++ rest)%list.
      rewrite app_assoc.
      replace maximumCallerDepth with (List.length (pre ++ [x])%list)
        by (rewrite length_app, H; reflexivity).
      apply firstn_exact.
    - apply firstn_all2. rewrite length_app. simpl.
      unfold maximumCallerDepth. lia. }
  rewrite E. apply removelast_last.
Qed.

Lemma getCaller_depth_limit_witness :
  getCaller (repeat frame_Infof 24 ++ frame_main :: [frame_goexit])%list = None /\
  getCaller ([frame_Fire; frame_main] ++ frame_goexit :: [])%list = Some frame_main.
Proof.
  split.
  - rewrite (getCaller_depth_limit (repeat frame_Infof 24) frame_main
               [frame_goexit]); [reflexivity |].
    left. reflexivity.
  - rewrite (getCaller_depth_limit [frame_Fire; frame_main] frame_goexit []);
      [reflexivity |].
    right. split; [simpl; lia | reflexivity].
Defined.

Example getCaller_within_depth :
  getCaller (repeat frame_Infof 23 ++ [frame_main; frame_goexit])%list
  = Some frame_main.
Proof. reflexivity. Qed.

Example getCaller_at_depth_25 :
  getCaller (repeat frame_Infof 24 ++ [frame_main; frame_runtime_main;
                                       frame_goexit])%list
  = None.
Proof. reflexivity. Qed.

End CallerExtra.

(** ** More on the split logger *)

Module SplitExtra.
Import dlog split_logger.

Lemma Helper_sinks (l : GenericLogger) :
  forall c, In c (Helper l) -> In (sink c) (sinks l).
Proof.
  induction l as [name fs | o IHo e IHe | g IHg | name]; simpl; intros c Hc.
  - destruct Hc as [<- | []]. simpl. auto.
  - apply in_or_app. left. apply IHo. exact Hc.
  - apply IHg. exact Hc.
  - destruct Hc as [<- | []]. simpl. auto.
Qed.

Lemma LogMessage_one_call (l : GenericLogger) (level : LogLevel) (message : string) :
  exists c, LogMessage l level message = [c] /\
            (method c = CallLogMessage level message \/
             method c = CallLog level [Str message]).
Proof.
  induction l as [name fs | o IHo e IHe | g IHg | name]; simpl.
  - eexists. split; [reflexivity |]. left. reflexivity.
  - destruct (SplitFacts.Log_one_call (levelLogger o e level) level [Str message])
      as [c [H1 H2]].
    exists c. auto.
  - exact IHg.
  - eexists. split; [reflexivity |]. left. reflexivity.
Qed.

Lemma Helper_one_call (l : GenericLogger) :
  exists c, Helper l = [c] /\ method c = CallHelper.
Proof.
  induction l as [name fs | o IHo e IHe | g IHg | name]; simpl; auto;
    eexists; split; reflexivity.
Qed.

(** X7: through any nesting of split loggers, each logging operation
    makes exactly one call on one backend, with the level and the
    arguments it was given: nothing is dropped, duplicated or changed.
    [LogMessage] arrives as [LogMessage], or as [Log] with the message as
    the single argument when a split logger is on the way. *)
Theorem logging_makes_one_call :
  forall (l : GenericLogger) (level : LogLevel) (args : list any)
         (format message : string),
    (exists c, Log l level args = [c] /\ method c = CallLog level args) /\
    (exists c, Logf l level format args = [c] /\
               method c = CallLogf level format args) /\
    (exists c, Logln l level args = [c] /\ method c = CallLogln level args) /\
    (exists c, LogMessage l level message = [c] /\
               (method c = CallLogMessage level message \/
                method c = CallLog level [Str message])) /\
    (exists c, Helper l = [c] /\ method c = CallHelper).
Proof.
  intros l level args format message.
  split; [apply SplitFacts.Log_one_call |].
  split; [apply SplitFacts.Logf_one_call |].
  split; [apply SplitFacts.Logln_one_call |].
  split; [apply LogMessage_one_call | apply Helper_one_call].
Qed.













(** X9: when the two sub-loggers share no backend, a logger made by
    [NewSplitLogger] never lets an error-level message reach a backend of
    [outLog], never lets a message of another level reach a backend of
    [errLog], and never passes [Helper] to a backend of [errLog]. *)
Theorem NewSplitLogger_separates :
  forall (outLog errLog : GenericLogger),
    (forall name, In name (sinks outLog) -> ~ In name (sinks errLog)) ->
    forall (level : LogLevel) (args : list any) (format message : string) (c : Call),
      (In c (Log (NewSplitLogger outLog errLog) level args
             ++ Logf (NewSplitLogger outLog errLog) level format args
             ++ Logln (NewSplitLogger outLog errLog) level args
             ++ LogMessage (NewSplitLogger outLog errLog) level message)%list ->
       (level = LogLevelError -> ~ In (sink c) (sinks outLog)) /\
       (level <> LogLevelError -> ~ In (sink c) (sinks errLog))) /\
      (In c (Helper (NewSplitLogger outLog errLog)) -> ~ In (sink c) (sinks errLog)).
Proof.
  intros outLog errLog Hdisj level args format message c. split.
  - intros Hc.
    assert (Hs : In (sink c) (sinks (levelLogger outLog errLog level))).
    { simpl in Hc.
      repeat (apply in_app_or in Hc; destruct Hc as [Hc | Hc]).
      - eapply SplitFacts.Log_sinks; exact Hc.
      - eapply SplitFacts.Logf_sinks; exact Hc.
      - eapply SplitFacts.Logln_sinks; exact Hc.
      - eapply SplitFacts.Log_sinks; exact Hc. }
    split.
    + intros ->. rewrite SplitFacts.levelLogger_error in Hs.
      intros Ho. exact (Hdisj _ Ho Hs).
    + intros Hne. rewrite (SplitFacts.levelLogger_other _ _ _ Hne) in Hs.
      apply Hdisj. exact Hs.
  - intros Hc. simpl in Hc. apply Helper_sinks in Hc.
    apply Hdisj. exact Hc.
Qed.

Lemma NewSplitLogger_separates_witness :
  ~ In "stdout"
      (sinks (SplitLogger (Backend "stderr" []) (Backend "syslog" []))) /\
  forall c,
    In c (Log (NewSplitLogger (Backend "stdout" [])
                 (SplitLogger (Backend "stderr" []) (Backend "syslog" [])))
              LogLevelInfo [Str "started"]) ->
    ~ In (sink c) (sinks (SplitLogger (Backend "stderr" []) (Backend "syslog" []))).
Proof.
  assert (D : forall name, In name (sinks (Backend "stdout" [])) ->
                ~ In name (sinks (SplitLogger (Backend "stderr" [])
                                              (Backend "syslog" [])))).
  { intros name [<- | []] [H | [H | []]]; discriminate H. }
  split; [apply D; simpl; auto |].
  intros c Hc.
  destruct (NewSplitLogger_separates (Backend "stdout" [])
              (SplitLogger (Backend "stderr" []) (Backend "syslog" []))
              D LogLevelInfo [Str "started"] "" "" c) as [H _].
  apply H.
  - apply in_or_app. left. exact Hc.
  - vm_compute. discriminate.
Defined.

Example WithField_twice :
  Log (WithField (WithField (NewSplitLogger (Backend "stdout" [])
                                            (Backend "stderr" []))
                            "pid" (Int 7)) "cmd" (Str "ls"))
      LogLevelError [Str "boom"]
  = [mkCall "stderr" [("pid", Int 7); ("cmd", Str "ls")]
       (CallLog LogLevelError [Str "boom"])].
Proof. reflexivity. Qed.

Example WithField_mixed_backends :
  Log (WithField (NewSplitLogger (Fieldless "plain") (Backend "stderr" []))
                 "pid" (Int 7)) LogLevelInfo [Str "up"]
  = [mkCall "plain" [] (CallLog LogLevelInfo [Str "up"])].
Proof. reflexivity. Qed.

End SplitExtra.

(** ** More on the interrupt capability and the signal bridge *)

Module InterruptExtra.
Import dexec.

Lemma canInterrupt_reads_bit (path : string) (args : list string) (hide : bool)
  (proc : option os.Process) (dl : bool) (flags : Z) :
  canInterrupt
    (Some (mkCmd (Some (exec.mkCmd path args
                          (Some (windows.mkSysProcAttr hide flags)) proc)) dl))
  = Z.testbit flags 9.
Proof. simpl. apply InterruptFacts.flag_test. Qed.

Lemma other_flag_bit (other : Z) :
  Z.land other windows.CREATE_NEW_PROCESS_GROUP = 0 -> Z.testbit other 9 = false.
Proof.
  change windows.CREATE_NEW_PROCESS_GROUP with (2 ^ 9).
  rewrite InterruptFacts.land_pow2 by lia.
  destruct (Z.testbit other 9); [discriminate | reflexivity].
Qed.

(** X10: the capability follows the one flag, whatever else the creation
    flags hold: a command whose flags had CREATE_NEW_PROCESS_GROUP or-ed
    in can be interrupted, one whose flags had it cleared cannot, and
    setting or clearing any flags that do not contain it changes
    nothing. *)
Theorem canInterrupt_follows_the_flag :
  forall (path : string) (args : list string) (hide : bool)
         (proc : option os.Process) (dl : bool) (flags : Z),
    canInterrupt
      (Some (mkCmd (Some (exec.mkCmd path args
         (Some (windows.mkSysProcAttr hide
                  (Z.lor flags windows.CREATE_NEW_PROCESS_GROUP))) proc)) dl))
    = true /\
    canInterrupt
      (Some (mkCmd (Some (exec.mkCmd path args
         (Some (windows.mkSysProcAttr hide
                  (Z.ldiff flags windows.CREATE_NEW_PROCESS_GROUP))) proc)) dl))
    = false /\
    (forall other,
       Z.land other windows.CREATE_NEW_PROCESS_GROUP = 0 ->
       canInterrupt
         (Some (mkCmd (Some (exec.mkCmd path args
            (Some (windows.mkSysProcAttr hide (Z.lor flags other))) proc)) dl))
       = canInterrupt
           (Some (mkCmd (Some (exec.mkCmd path args
              (Some (windows.mkSysProcAttr hide flags)) proc)) dl)) /\
       canInterrupt
         (Some (mkCmd (Some (exec.mkCmd path args
            (Some (windows.mkSysProcAttr hide (Z.ldiff flags other))) proc)) dl))
       = canInterrupt
           (Some (mkCmd (Some (exec.mkCmd path args
              (Some (windows.mkSysProcAttr hide flags)) proc)) dl))).
Proof.
  intros path args hide proc dl flags.
  rewrite !canInterrupt_reads_bit.
  split; [| split].
  - rewrite Z.lor_spec. apply orb_true_r.
  - rewrite Z.ldiff_spec. apply andb_false_r.
  - intros other H. rewrite !canInterrupt_reads_bit.
    rewrite Z.lor_spec, Z.ldiff_spec, (other_flag_bit other H).
    rewrite orb_false_r, andb_true_r. auto.
Qed.

Lemma canInterrupt_follows_the_flag_witness :
  canInterrupt
    (Some (mkCmd (Some (exec.mkCmd "a.exe" []
       (Some (windows.mkSysProcAttr false (Z.lor 0x200 0x08000010))) None)) false))
  = true.
Proof.
  destruct (canInterrupt_follows_the_flag "a.exe" [] false None false 0x200)
    as [_ [_ H]].
  destruct (H 0x08000010 eq_refl) as [H1 _].
  rewrite H1. reflexivity.
Defined.

End InterruptExtra.

Module SigintExtra.
Import sigint.

(** X11: the process group that [SendInterrupt] names is the PID
    truncated to 32 bits: it is always a uint32, a negative PID down to
    -2^32 stands for the PID plus 2^32, and two handles whose PIDs agree
    modulo 2^32 get the same call and the same answer.  A nil handle
    makes [SendInterrupt] panic before the platform is called. *)
Theorem SendInterrupt_truncates_pid :
  forall (World : Type)
         (GenerateConsoleCtrlEvent : Z -> Z -> World -> option windows.Errno * World)
         (p p' : os.Process) (w : World),
    is_uint32 (uint32 (os.Pid p)) /\
    (- uint32_modulus <= os.Pid p < 0 ->
       uint32 (os.Pid p) = os.Pid p + uint32_modulus) /\
    ((os.Pid p - os.Pid p') mod uint32_modulus = 0 ->
       SendInterrupt World GenerateConsoleCtrlEvent (Some p) w
       = SendInterrupt World GenerateConsoleCtrlEvent (Some p') w) /\
    SendInterrupt World GenerateConsoleCtrlEvent None w = (Panic NilDereference, w).
Proof.
  intros World G p p' w. unfold uint32, is_uint32, uint32_modulus.
  split; [apply Z.mod_pos_bound; lia |].
  split; [| split; [| reflexivity]].
  - intros H. symmetry. apply Z.mod_unique with (q := -1); lia.
  - intros H. unfold SendInterrupt, uint32, uint32_modulus.
    replace (os.Pid p mod 2 ^ 32) with (os.Pid p' mod 2 ^ 32); [reflexivity |].
    apply Z.mod_divide in H; [| lia]. destruct H as [k Hk].
    replace (os.Pid p) with (os.Pid p' + k * 2 ^ 32) by lia.
    symmetry. apply Z.mod_add. lia.
Qed.

Lemma SendInterrupt_truncates_pid_witness :
  uint32 (-1) = 4294967295 /\
  SendInterrupt Console console_GenerateConsoleCtrlEvent
    (Some (os.mkProcess (-1))) (mkConsole [4294967295] [])
  = SendInterrupt Console console_GenerateConsoleCtrlEvent
      (Some (os.mkProcess 4294967295)) (mkConsole [4294967295] []).
Proof.
  destruct (SendInterrupt_truncates_pid Console console_GenerateConsoleCtrlEvent
              (os.mkProcess (-1)) (os.mkProcess 4294967295)
              (mkConsole [4294967295] [])) as [_ [H1 [H2 _]]].
  split.
  - apply H1. simpl. unfold uint32_modulus. lia.
  - apply H2. reflexivity.
Defined.

End SigintExtra.

(** ** GenericImpl *)

Module GenericImplFacts.
Import dlog generic_impl.

Lemma length_append (a b : string) :
  String.length (a ++ b) = (String.length a + String.length b)%nat.
Proof.
  induction a as [| c a IH]; simpl; [reflexivity | rewrite IH; reflexivity].
Qed.

Lemma substring_append (a b : string) :
  substring 0 (String.length a) (a ++ b) = a.
Proof.
  induction a as [| c a IH]; simpl.
  - destruct b; reflexivity.
  - rewrite IH. reflexivity.
Qed.

Lemma slice_last (body : string) (c : ascii) :
  slice_to (body ++ String c "")
           (Z.of_nat (String.length (body ++ String c "")) - 1)
  = Some body.
Proof.
  unfold slice_to. rewrite length_append. simpl String.length.
  replace (Z.of_nat (String.length body + 1) - 1)
    with (Z.of_nat (String.length body)) by lia.
  destruct (Z.of_nat (String.length body) <? 0) eqn:E1;
    [apply Z.ltb_lt in E1; lia |].
  destruct (Z.of_nat (String.length body + 1) <? Z.of_nat (String.length body))
    eqn:E2; [apply Z.ltb_lt in E2; lia |].
  simpl. rewrite Nat2Z.id, substring_append. reflexivity.
Qed.

(** X12: [GenericImpl.Logln] calls [Helper] and then [LogMessage] with
    what [Sprintln] returned less its last byte, the newline: the
    operands joined by spaces, and the empty message for no operands.
    It panics, after [Helper], exactly when [Sprintln] returns the empty
    string. *)
Theorem Logln_drops_the_newline :
  forall (Sprintln : list split_logger.any -> string) (level : LogLevel)
         (args : list split_logger.any),
    (forall body c,
       Sprintln args = (body ++ String c "")%string ->
       Logln Sprintln level args = ([PlainHelper; PlainLogMessage level body], false)) /\
    (snd (Logln Sprintln level args) = true <-> Sprintln args = ""%string) /\
    hd_error (fst (Logln Sprintln level args)) = Some PlainHelper.
Proof.
  intros Sprintln level args. unfold Logln. split; [| split].
  - intros body c H. rewrite H, slice_last. reflexivity.
  - destruct (Sprintln args) as [| c msg] eqn:E.
    + simpl. split; reflexivity.
    + unfold slice_to. simpl String.length.
      destruct (Z.of_nat (S (String.length msg)) - 1 <? 0) eqn:E1;
        [apply Z.ltb_lt in E1; lia |].
      destruct (Z.of_nat (S (String.length msg))
                <? Z.of_nat (S (String.length msg)) - 1) eqn:E2;
        [apply Z.ltb_lt in E2; lia |].
      simpl. split; discriminate.
  - destruct (slice_to (Sprintln args)
                (Z.of_nat (String.length (Sprintln args)) - 1)); reflexivity.
Qed.

Lemma Logln_drops_the_newline_witness :
  Logln sample_Sprintln LogLevelInfo [split_logger.Str "pid"; split_logger.Int 42]
  = ([PlainHelper; PlainLogMessage LogLevelInfo "pid 42"], false) /\
  Logln sample_Sprintln LogLevelInfo []
  = ([PlainHelper; PlainLogMessage LogLevelInfo ""], false).
Proof.
  split.
  - destruct (Logln_drops_the_newline sample_Sprintln LogLevelInfo
                [split_logger.Str "pid"; split_logger.Int 42]) as [H _].
    apply (H "pid 42"%string (ascii_of_nat 10)). reflexivity.
  - destruct (Logln_drops_the_newline sample_Sprintln LogLevelInfo [])
      as [H _].
    apply (H ""%string (ascii_of_nat 10)). reflexivity.
Defined.

End GenericImplFacts.
